(** * The CORS proxy worker: allow-list, feed normalizer, cache policy

    A shallow embedding of the Cloudflare worker of
    [src/lib/stores/news.ts.orig] (the part after the store code:
    [ALLOWED_ORIGINS], [getCacheTtl], [parseRssToJson], [extractTag],
    [extractAtomLink], [decodeHtmlEntities], [isRssFeed],
    [addCorsHeaders], [isAllowedOrigin] and the [fetch] handler), and the
    properties of it that the specification states. *)

From Stdlib Require Import NArith ZArith Lia List Ascii String.
From stdpp Require Import base option list functions gmap strings pretty.

Local Open Scope N_scope.

(** ** JavaScript strings

    A JavaScript string is a sequence of 16-bit code units.  The worker
    builds code units from numbers ([String.fromCharCode]), so they are
    kept as numbers here and not as 8-bit characters. *)

Module JS.

Abbreviation jsstring := (list N).

(** A literal of the source, all of whose characters are ASCII. *)
Definition js (s : string) : list N :=
  map N_of_ascii (list_ascii_of_string s).

(** [ToBoolean] on a string: only the empty string is falsy. *)
Definition truthy (s : list N) : bool :=
  match s with
  | [] => false
  | _ :: _ => true
  end.

(** [a || d] where [a] is a string or [null]. *)
Definition or_else (a : option (list N)) (d : list N) : list N :=
  match a with
  | Some s => if truthy s then s else d
  | None => d
  end.

(** [s.startsWith(p)], giving what follows the prefix. *)
Fixpoint strip (p s : list N) : option (list N) :=
  match p, s with
  | [], _ => Some s
  | x :: p', c :: s' => if x =? c then strip p' s' else None
  | _ :: _, [] => None
  end.

(** [s.includes(sub)]: [sub] occurs in [s], compared code unit by code
    unit. *)
Fixpoint includes (s sub : list N) {struct s} : bool :=
  match strip sub s with
  | Some _ => true
  | None =>
      match s with
      | [] => false
      | _ :: s' => includes s' sub
      end
  end.

(** The white space and line terminators that [String.prototype.trim]
    removes. *)
Definition is_space (c : N) : bool :=
  ((9 <=? c) && (c <=? 13)) || (c =? 32) || (c =? 160) || (c =? 5760)
  || ((8192 <=? c) && (c <=? 8202)) || (c =? 8232) || (c =? 8233)
  || (c =? 8239) || (c =? 8287) || (c =? 12288) || (c =? 65279).

Fixpoint trimStart (s : list N) : list N :=
  match s with
  | [] => []
  | c :: s' => if is_space c then trimStart s' else s
  end.

Definition trim (s : list N) : list N :=
  rev (trimStart (rev (trimStart s))).

(** The value of a digit in [parseInt]; the callers pass only digits of
    the radix, which the pattern that captured them guarantees. *)
Definition digit_val (c : N) : N :=
  if (48 <=? c) && (c <=? 57) then c - 48
  else if (97 <=? c) && (c <=? 102) then c - 87
  else if (65 <=? c) && (c <=? 70) then c - 55
  else 0.

(** The mathematical value [parseInt(ds, radix)] reads from a non-empty
    run of digits. *)
Definition digits_val (radix : N) (ds : list N) : N :=
  fold_left (fun acc c => acc * radix + digit_val c) ds 0.

(** [parseInt] returns a Number: the integer rounded to the nearest
    double (53 bits of mantissa, ties to even); [None] is [Infinity]. *)
Definition to_double (n : N) : option N :=
  if n <? 2 ^ 53 then Some n
  else
    let e := N.log2 n - 52 in
    let q := n / 2 ^ e in
    let r := n mod 2 ^ e in
    let half := 2 ^ (e - 1) in
    let q' := if r <? half then q
              else if half <? r then q + 1
              else if N.even q then q else q + 1 in
    let v := q' * 2 ^ e in
    if v <? 2 ^ 1024 then Some v else None.

(** [String.fromCharCode(x)] for a Number [x >= 0]: the code unit
    [ToUint16(x)], which is [0] for [Infinity]. *)
Definition fromCharCode (x : option N) : list N :=
  match x with
  | Some v => [v mod 65536]
  | None => [0]
  end.

(** [String(n)] for a small non-negative integer. *)
Definition String_of_N (n : N) : list N := js (pretty n).

End JS.
Import JS.

(** ** The regular expressions of the worker

    Every pattern of the source is a sequence of literals, single
    character classes and repeated character classes, with at most one
    capture group, which wraps a repeated class.  [rmatch] is the
    backtracking matcher of ECMAScript restricted to that shape: a greedy
    repetition tries the longest run first, a lazy one the shortest, and
    the first alternative whose continuation succeeds wins. *)

Module RegExp.

Inductive atom :=
| Lit (s : list N)
| One (cls : N -> bool)
| Rep (cls : N -> bool) (min : nat) (greedy capture : bool).

(** Canonicalization under the [i] flag (no [u] flag): a code unit is
    compared through its upper case, and a code unit at or above 128
    never folds to an ASCII one.  All letters in the patterns are ASCII,
    so only the folding of ASCII letters is observable. *)
Definition canon (c : N) : N :=
  if (97 <=? c) && (c <=? 122) then c - 32 else c.

Definition same (ic : bool) (x c : N) : bool :=
  if ic then canon x =? canon c else x =? c.

Fixpoint lit (ic : bool) (p s : list N) : option (list N) :=
  match p, s with
  | [], _ => Some s
  | x :: p', c :: s' => if same ic x c then lit ic p' s' else None
  | _ :: _, [] => None
  end.

(** A repetition: [k] is the continuation (the rest of the pattern),
    [taken] the code units consumed so far, latest first.  [stop] ends
    the repetition here, once [min] code units have been taken. *)
Definition stop {A} (min : nat) (k : list N -> list N -> option A)
    (taken s : list N) : option A :=
  if (min <=? length taken)%nat then k (rev taken) s else None.

Fixpoint rep {A} (cls : N -> bool) (min : nat) (greedy : bool)
    (k : list N -> list N -> option A) (taken s : list N) : option A :=
  match s with
  | c :: s' =>
      if cls c then
        if greedy then
          match rep cls min greedy k (c :: taken) s' with
          | Some x => Some x
          | None => stop min k taken s
          end
        else
          match stop min k taken s with
          | Some x => Some x
          | None => rep cls min greedy k (c :: taken) s'
          end
      else stop min k taken s
  | [] => stop min k taken s
  end.

(** A match of the pattern at the start of [s]: the text of the capture
    group ([cap] until the group is passed) and what follows the match. *)
Fixpoint rmatch (ic : bool) (r : list atom) (cap : list N) (s : list N)
    : option (list N * list N) :=
  match r with
  | [] => Some (cap, s)
  | Lit p :: r' =>
      match lit ic p s with
      | Some s' => rmatch ic r' cap s'
      | None => None
      end
  | One cls :: r' =>
      match s with
      | c :: s' => if cls c then rmatch ic r' cap s' else None
      | [] => None
      end
  | Rep cls min greedy capture :: r' =>
      rep cls min greedy
        (fun got s' => rmatch ic r' (if capture then got else cap) s') [] s
  end.

(** [s.match(r)] without the [g] flag: the leftmost match; the result
    is the capture group. *)
Fixpoint search (ic : bool) (r : list atom) (s : list N) : option (list N) :=
  match rmatch ic r [] s with
  | Some (cap, _) => Some cap
  | None =>
      match s with
      | [] => None
      | _ :: s' => search ic r s'
      end
  end.

(** [s.match(r)] with the [g] flag: the texts of all matches, each
    search starting where the previous match ended ([skip] code units
    further on; one further on after an empty match). *)
Fixpoint match_all (ic : bool) (r : list atom) (s : list N) (skip : nat)
    : list (list N) :=
  match skip with
  | S n =>
      match s with
      | [] => []
      | _ :: s' => match_all ic r s' n
      end
  | O =>
      match rmatch ic r [] s with
      | Some (_, rest) =>
          let n := (length s - length rest)%nat in
          take n s ::
            match s with
            | [] => []
            | _ :: s' => match_all ic r s' (n - 1)
            end
      | None =>
          match s with
          | [] => []
          | _ :: s' => match_all ic r s' 0
          end
      end
  end.

(** [s.replace(r, f)] with the [g] flag; [f] receives the capture
    group. *)
Fixpoint replace_all (ic : bool) (r : list atom) (f : list N -> list N)
    (s : list N) (skip : nat) : list N :=
  match skip with
  | S n =>
      match s with
      | [] => []
      | _ :: s' => replace_all ic r f s' n
      end
  | O =>
      match rmatch ic r [] s with
      | Some (cap, rest) =>
          let n := (length s - length rest)%nat in
          f cap ++
            match s with
            | [] => []
            | c :: s' =>
                (if (n =? 0)%nat then [c] else []) ++ replace_all ic r f s' (n - 1)
            end
      | None =>
          match s with
          | [] => []
          | c :: s' => c :: replace_all ic r f s' 0
          end
      end
  end.

(** The character classes of the source: any code unit, any but [>],
    a double or single quote, any but a quote, a decimal digit, and a
    hexadecimal digit of either case (the class [0-9a-f] under the [i]
    flag). *)
Definition any (_ : N) : bool := true.
Definition not_gt (c : N) : bool := negb (c =? 62).
Definition quote (c : N) : bool := (c =? 34) || (c =? 39).
Definition not_quote (c : N) : bool := negb (quote c).
Definition digit (c : N) : bool := (48 <=? c) && (c <=? 57).
Definition hex_digit (c : N) : bool :=
  digit c || ((97 <=? c) && (c <=? 102)) || ((65 <=? c) && (c <=? 70)).

End RegExp.
Import RegExp.

(** ** Exceptions

    A computation of the worker either returns or throws; [try]/[catch]
    is a match on the result. *)

Inductive result (A : Type) :=
| Ok (a : A)
| Throw (message : list N).
Arguments Ok {A} a.
Arguments Throw {A} message.

#[global] Instance result_ret : MRet result := fun A a => Ok a.
#[global] Instance result_bind : MBind result := fun A B f m =>
  match m with
  | Ok a => f a
  | Throw e => Throw e
  end.

(** [a || b] on values that are a string or [null]; [b] is evaluated
    only when [a] is falsy. *)
Definition or_r (a b : result (option (list N))) : result (option (list N)) :=
  x ← a;
  match x with
  | Some s => if truthy s then mret x else b
  | None => b
  end.

(** [a || d] with a string [d], as in [extractTag(xml, 'title') || '']. *)
Definition or_d (a : result (option (list N))) (d : list N) : result (list N) :=
  x ← a; mret (or_else x d).

(** ** The allow-list and the cache policy *)

Definition ALLOWED_ORIGINS : list (list N) :=
  map js
    [ "api.rss2json.com"; "api.gdeltproject.org"; "api.coingecko.com";
      "fred.stlouisfed.org"; "earthquake.usgs.gov";
      "feeds.bbci.co.uk"; "feeds.npr.org"; "rss.nytimes.com"; "rss.cnn.com";
      "www.theguardian.com"; "news.google.com";
      "news.ycombinator.com"; "hnrss.org"; "feeds.arstechnica.com";
      "www.theverge.com"; "www.technologyreview.com"; "feeds.feedburner.com";
      "arxiv.org"; "rss.arxiv.org";
      "www.cnbc.com"; "feeds.marketwatch.com"; "finance.yahoo.com"; "www.ft.com";
      "www.whitehouse.gov"; "www.federalreserve.gov"; "www.sec.gov";
      "www.defense.gov"; "www.cisa.gov";
      "www.csis.org"; "www.brookings.edu"; "www.cfr.org"; "www.defenseone.com";
      "warontherocks.com"; "breakingdefense.com"; "www.thedrive.com";
      "thediplomat.com"; "www.al-monitor.com"; "www.bellingcat.com";
      "krebsonsecurity.com";
      "openai.com"; "venturebeat.com"; "blog.google"; "news.mit.edu";
      "huggingface.co"; "deepmind.google" ]%string.

(** Cache TTLs by content type and host, in seconds. *)
Definition getCacheTtl (contentType host : list N) : N :=
  if includes contentType (js "xml") || includes contentType (js "rss") then 300
  else if includes host (js "gdelt") then 180
  else if includes host (js "coingecko") then 60
  else if includes host (js "usgs") then 300
  else if includes host (js "fred") then 3600
  else 120.

(** ** The feed normalizer *)

Definition decodeHtmlEntities (text : list N) : list N :=
  if negb (truthy text) then text
  else
    let t1 := replace_all false [Lit (js "&lt;")] (fun _ => js "<") text 0 in
    let t2 := replace_all false [Lit (js "&gt;")] (fun _ => js ">") t1 0 in
    let t3 := replace_all false [Lit (js "&amp;")] (fun _ => js "&") t2 0 in
    let t4 := replace_all false [Lit (js "&quot;")] (fun _ => [34]) t3 0 in
    let t5 := replace_all false [Lit (js "&#39;")] (fun _ => js "'") t4 0 in
    let t6 := replace_all false [Lit (js "&apos;")] (fun _ => js "'") t5 0 in
    let t7 := replace_all true [Lit (js "&#x"); Rep hex_digit 1 true true; Lit (js ";")]
                (fun hex => fromCharCode (to_double (digits_val 16 hex))) t6 0 in
    replace_all false [Lit (js "&#"); Rep digit 1 true true; Lit (js ";")]
      (fun dec => fromCharCode (to_double (digits_val 10 dec))) t7 0.

(** The characters of the tag names that the worker asks for: letters,
    digits and the colon. *)
Definition tag_char (c : N) : bool :=
  digit c || ((97 <=? c) && (c <=? 122)) || ((65 <=? c) && (c <=? 90)) || (c =? 58).

(** [new RegExp] receives the tag name as pattern text.  A name stands
    for itself there when it is made of ASCII code units none of which
    is a pattern syntax character (the colon, which [extractTag]
    escapes, stands for itself escaped or not); any other name would be
    read as pattern syntax.  [Literal] is the precondition under which
    [extractTag] is defined here: it holds of every name that the
    worker passes, and of names such as [media-group] or [a_b]. *)
Definition syntax_char (c : N) : bool :=
  existsb (N.eqb c) (js "^$\.*+?()[]{}|").

Definition literal_char (c : N) : bool :=
  (c <? 128) && negb (syntax_char c).

Class Literal (tagName : list N) : Prop :=
  literal : forallb literal_char tagName = true.

#[global] Hint Extern 0 (Literal _) => exact (eq_refl true) : typeclass_instances.

(** The pattern of the CDATA attempt: the opening tag with any
    attributes, the CDATA opener, the captured text (lazy), the CDATA
    closer and the closing tag. *)
Definition cdataRegex (escapedTag : list N) : list atom :=
  [ Lit (js "<" ++ escapedTag); Rep not_gt 0 true false; Lit (js "><![CDATA[");
    Rep any 0 false true; Lit (js "]]></" ++ escapedTag ++ js ">") ].

(** The pattern of the plain attempt. *)
Definition regex (escapedTag : list N) : list atom :=
  [ Lit (js "<" ++ escapedTag); Rep not_gt 0 true false; Lit (js ">");
    Rep any 0 false true; Lit (js "</" ++ escapedTag ++ js ">") ].

(** Extract content from an XML tag.  The tag name is literal, so the
    two patterns built from it are the literal ones. *)
Definition extractTag (xml tagName : list N) `{!Literal tagName}
    : result (option (list N)) :=
  match search true (cdataRegex tagName) xml with
  | Some cdataMatch => Ok (Some (decodeHtmlEntities (trim cdataMatch)))
  | None =>
      match search true (regex tagName) xml with
      | Some m => Ok (Some (decodeHtmlEntities (trim m)))
      | None => Ok None
      end
  end.

(** The pattern of [extractAtomLink]: a [link] tag with an [href]
    attribute in double or single quotes, whose value is captured. *)
Definition linkRegex : list atom :=
  [ Lit (js "<link"); Rep not_gt 0 true false; Lit (js "href="); One quote;
    Rep not_quote 1 true true; One quote; Rep not_gt 0 true false; Lit (js ">") ].

Definition extractAtomLink (entry : list N) : result (option (list N)) :=
  match search true linkRegex entry with
  | Some linkMatch => Ok (Some linkMatch)
  | None => extractTag entry (js "link")
  end.

Record FeedItem := {
  item_title : list N;
  item_pubDate : list N;
  item_link : list N;
  item_description : list N;
  item_content : list N
}.

Record FeedInfo := {
  feed_url : list N;
  feed_title : list N;
  feed_link : list N;
  feed_description : list N
}.

Record FeedDocument := {
  status : list N;
  feed : FeedInfo;
  items : list FeedItem
}.

Definition parseAtomEntry (entry : list N) : result FeedItem :=
  title ← or_d (extractTag entry (js "title")) [];
  pubDate ← or_d (or_r (extractTag entry (js "published")) (extractTag entry (js "updated"))) [];
  link ← or_d (extractAtomLink entry) [];
  description ← or_d (or_r (extractTag entry (js "summary")) (extractTag entry (js "content"))) [];
  content ← or_d (extractTag entry (js "content")) [];
  mret {| item_title := title; item_pubDate := pubDate; item_link := link;
          item_description := description; item_content := content |}.

Definition parseRssItem (item : list N) : result FeedItem :=
  title ← or_d (extractTag item (js "title")) [];
  pubDate ← or_d (or_r (extractTag item (js "pubDate")) (extractTag item (js "dc:date"))) [];
  link ← or_d (or_r (extractTag item (js "link")) (extractTag item (js "guid"))) [];
  description ← or_d (extractTag item (js "description")) [];
  content ← or_d (or_r (extractTag item (js "content:encoded")) (extractTag item (js "content"))) [];
  mret {| item_title := title; item_pubDate := pubDate; item_link := link;
          item_description := description; item_content := content |}.

(** [if (item.title || item.link)]. *)
Definition kept (item : FeedItem) : bool :=
  truthy (item_title item) || truthy (item_link item).

(** The [for ... of] loop over the sliced matches; [acc] is
    [result.items], to which [push] appends. *)
Fixpoint pushItems (parse : list N -> result FeedItem) (elements : list (list N))
    (acc : list FeedItem) : result (list FeedItem) :=
  match elements with
  | [] => Ok acc
  | e :: rest =>
      match parse e with
      | Ok item => pushItems parse rest (if kept item then acc ++ [item] else acc)
      | Throw m => Throw m
      end
  end.

Definition entryRegex : list atom :=
  [ Lit (js "<entry"); Rep any 0 false false; Lit (js "</entry>") ].

Definition itemRegex : list atom :=
  [ Lit (js "<item"); Rep any 0 false false; Lit (js "</item>") ].

Definition atomNamespace : list N :=
  js "xmlns=" ++ [34] ++ js "http://www.w3.org/2005/Atom" ++ [34].

Definition isAtom (xml : list N) : bool :=
  includes xml (js "<feed") && includes xml atomNamespace.

(** Parse RSS/Atom XML to JSON. *)
Definition parseRssToJson (xml feedUrl : list N) : result FeedDocument :=
  title ← or_d (extractTag xml (js "title")) [];
  link ← or_d (extractTag xml (js "link")) feedUrl;
  description ← or_d (or_r (extractTag xml (js "description")) (extractTag xml (js "subtitle"))) [];
  items ← (if isAtom xml
           then pushItems parseAtomEntry (take 20 (match_all true entryRegex xml 0)) []
           else pushItems parseRssItem (take 20 (match_all true itemRegex xml 0)) []);
  mret {| status := js "ok";
          feed := {| feed_url := feedUrl; feed_title := title; feed_link := link;
                     feed_description := description |};
          items := items |}.

(** Check if content is RSS/Atom XML. *)
Definition isRssFeed (contentType body : list N) : bool :=
  if includes contentType (js "xml") || includes contentType (js "rss")
     || includes contentType (js "atom") then true
  else if truthy body && (includes body (js "<rss") || includes body (js "<feed")
                          || includes body (js "<channel")) then true
  else false.

(** ** Responses and headers *)

(** A [Headers] object: names are case-insensitive and kept in lower
    case; [set] replaces. *)
Definition lower (c : N) : N :=
  if (65 <=? c) && (c <=? 90) then c + 32 else c.

Definition Headers_set (name value : list N) (h : gmap (list N) (list N))
    : gmap (list N) (list N) :=
  <[map lower name := value]> h.

Definition Headers_get (name : list N) (h : gmap (list N) (list N))
    : option (list N) :=
  h !! map lower name.

(** [new Headers({...})] and the [headers] member of a response
    initializer. *)
Definition Headers_of (l : list (list N * list N)) : gmap (list N) (list N) :=
  fold_left (fun h nv => Headers_set nv.1 nv.2 h) l ∅.

(** The values handed to [JSON.stringify]. *)
#[local] Set Warnings "-register-all".
Inductive json :=
| JStr (s : list N)
| JArr (l : list json)
| JObj (fields : list (string * json)).
#[local] Set Warnings "register-all".

(** A response body: none, a text, or the text [JSON.stringify]
    produces, kept as the value it serializes. *)
Inductive Body :=
| BNull
| BText (s : list N)
| BStringify (v : json).

Record Response := {
  resp_status : N;
  resp_statusText : list N;
  resp_headers : gmap (list N) (list N);
  resp_body : Body
}.

Definition null_body_status (st : N) : bool :=
  (st =? 101) || (st =? 103) || (st =? 204) || (st =? 205) || (st =? 304).

Definition has_body (b : Body) : bool :=
  match b with
  | BNull => false
  | _ => true
  end.

(** [new Response(body, {status, statusText, headers})]: a RangeError
    for a status outside 200..599, a TypeError for a body with a
    null-body status.  [typed] says that the body is given as a string,
    in which case a missing Content-Type is filled in; the body of
    another response (a stream) is taken as it is. *)
Definition new_Response (typed : bool) (body : Body) (st : N) (stText : list N)
    (headers : gmap (list N) (list N)) : result Response :=
  if (st <? 200) || (599 <? st) then Throw (js "RangeError")
  else if has_body body && null_body_status st then Throw (js "TypeError")
  else
    Ok {| resp_status := st;
          resp_statusText := stText;
          resp_headers :=
            match Headers_get (js "Content-Type") headers with
            | None =>
                if typed && has_body body
                then Headers_set (js "Content-Type") (js "text/plain;charset=UTF-8") headers
                else headers
            | Some _ => headers
            end;
          resp_body := body |}.

(** Add CORS headers to response. *)
Definition addCorsHeaders (response : Response) (origin : list N) : result Response :=
  let headers := resp_headers response in
  let headers := Headers_set (js "Access-Control-Allow-Origin") (or_else (Some origin) (js "*")) headers in
  let headers := Headers_set (js "Access-Control-Allow-Methods") (js "GET, HEAD, OPTIONS") headers in
  let headers := Headers_set (js "Access-Control-Allow-Headers") (js "Content-Type, Accept") headers in
  let headers := Headers_set (js "Access-Control-Max-Age") (js "86400") headers in
  new_Response false (resp_body response) (resp_status response)
    (resp_statusText response) headers.

(** The four headers of the CORS set are present. *)
Definition has_cors (r : Response) : bool :=
  forallb (fun name => bool_decide (is_Some (Headers_get (js name) (resp_headers r))))
    [ "Access-Control-Allow-Origin"; "Access-Control-Allow-Methods";
      "Access-Control-Allow-Headers"; "Access-Control-Max-Age" ]%string.

Definition json_of_item (i : FeedItem) : json :=
  JObj [ ("title", JStr (item_title i)); ("pubDate", JStr (item_pubDate i));
         ("link", JStr (item_link i)); ("description", JStr (item_description i));
         ("content", JStr (item_content i)) ]%string.

Definition json_of_document (d : FeedDocument) : json :=
  JObj [ ("status", JStr (status d));
         ("feed", JObj [ ("url", JStr (feed_url (feed d)));
                         ("title", JStr (feed_title (feed d)));
                         ("link", JStr (feed_link (feed d)));
                         ("description", JStr (feed_description (feed d))) ]);
         ("items", JArr (map json_of_item (items d))) ]%string.

(** ** The request handler *)

Record Request := {
  method : list N;
  header_Origin : option (list N);      (* request.headers.get('Origin') *)
  param_url : option (list N);          (* url.searchParams.get('url') *)
  param_format : option (list N)        (* url.searchParams.get('format') *)
}.

(** What [await fetch(targetUrl, ...)] gives: a rejection (network
    error), or the upstream response, whose [text()] may reject too. *)
Inductive Fetched :=
| NetworkError (message : list N)
| Upstream (st : N) (stText : list N) (contentType : option (list N))
    (text : result (list N)).

(** What the handler does to the outside: the upstream request (with
    the [cf.cacheTtl] it asks for) and the deferred [cache.put]. *)
Inductive Event :=
| EFetch (url : list N) (cacheTtl : N)
| EPut (cacheKey : list N) (response : Response).

(** The outside as one request sees it: the entries of
    [caches.default], the origin servers, and the clock as
    [new Date().toISOString()] reads it. *)
Record World := {
  cache : gmap (list N) Response;
  upstream : list N -> Fetched;
  now : list N
}.

(** A step of the handler: it returns or throws, and leaves events. *)
Definition M (A : Type) : Type := (result A * list Event)%type.

Definition retM {A} (a : A) : M A := (Ok a, []).

Definition liftM {A} (r : result A) : M A := (r, []).

Definition bindM {A B} (m : M A) (f : A -> M B) : M B :=
  match m.1 with
  | Ok a => let r := f a in (r.1, m.2 ++ r.2)
  | Throw e => (Throw e, m.2)
  end.

(** [try { m } catch (error) { h error.message }]. *)
Definition try_catch {A} (m : M A) (h : list N -> M A) : M A :=
  match m.1 with
  | Ok a => m
  | Throw e => let r := h e in (r.1, m.2 ++ r.2)
  end.

Notation "'let*' x ':=' m 'in' k" := (bindM m (fun x => k))
  (at level 10, x name, m at level 100, k at level 200).

Definition corsHeaders (origin : list N) : list (list N * list N) :=
  [ (js "Access-Control-Allow-Origin", origin);
    (js "Access-Control-Allow-Methods", js "GET, HEAD, OPTIONS");
    (js "Access-Control-Allow-Headers", js "Content-Type, Accept");
    (js "Access-Control-Max-Age", js "86400") ].

Definition jsonHeaders : gmap (list N) (list N) :=
  Headers_of [ (js "Content-Type", js "application/json") ].

Definition usage : list N :=
  js "Add ?url=<encoded-url>&format=json to fetch and parse RSS feeds".

Section Worker.

(** The platform's URL parser, of which the worker reads the host name:
    [URL_hostname u] is [new URL(u).hostname], or [None] when the
    constructor throws. *)
Variable URL_hostname : list N -> option (list N).

(** The key under which [caches.default] files [new Request(u, request)],
    or [None] when the [Request] constructor rejects [u]. *)
Variable cache_key : list N -> option (list N).

(** Validate target URL. *)
Definition isAllowedOrigin (targetUrl : list N) : bool :=
  match URL_hostname targetUrl with
  | Some hostname => existsb (fun allowed => includes hostname allowed) ALLOWED_ORIGINS
  | None => false
  end.

(** The key text: the format is made part of it by a suffix. *)
Definition cacheKeyUrl (targetUrl : list N) (wantJson : bool) : list N :=
  if wantJson then targetUrl ++ js "__json" else targetUrl.

(** [await fetch(targetUrl, {headers, cf})]. *)
Definition do_fetch (w : World) (targetUrl : list N) (cacheTtl : N)
    : M (N * list N * option (list N) * result (list N)) :=
  match upstream w targetUrl with
  | NetworkError e => (Throw e, [EFetch targetUrl cacheTtl])
  | Upstream st stText ct text => (Ok (st, stText, ct, text), [EFetch targetUrl cacheTtl])
  end.

(** [ctx.waitUntil(cache.put(cacheKey, response))]. *)
Definition waitUntil_put (cacheKey : list N) (response : Response) : M unit :=
  (Ok tt, [EPut cacheKey response]).

(** The body of the [try] block: fetch from origin, normalize, store. *)
Definition fetch_origin (w : World) (targetUrl origin cacheKey : list N)
    (wantJson : bool) : M Response :=
  let* hostname := liftM (match URL_hostname targetUrl with
                          | Some h => Ok h
                          | None => Throw (js "Invalid URL")
                          end) in
  let* response := do_fetch w targetUrl (getCacheTtl [] hostname) in
  let '(st, stText, ct, text) := response in
  if negb ((200 <=? st) && (st <=? 299)) then
    let* r := liftM (new_Response true
                (BStringify (JObj [ ("error", JStr (js "Upstream error: " ++ String_of_N st
                                                       ++ js " " ++ stText));
                                    ("url", JStr targetUrl) ]%string))
                st [] jsonHeaders) in
    liftM (addCorsHeaders r origin)
  else
    let contentType := or_else ct [] in
    let* body := liftM text in
    let cacheTtl := getCacheTtl contentType hostname in
    let finish (finalBody : Body) (finalContentType : list N) : M Response :=
      let* finalResponse := liftM (new_Response true finalBody 200 []
                              (Headers_of [ (js "Content-Type", finalContentType);
                                            (js "X-Cache", js "MISS");
                                            (js "X-Cache-TTL", String_of_N cacheTtl) ])) in
      let* _ := (if 0 <? cacheTtl then
                   let cacheHeaders := resp_headers finalResponse in
                   let cacheHeaders := Headers_set (js "Cache-Control")
                                         (js "public, max-age=" ++ String_of_N cacheTtl) cacheHeaders in
                   let cacheHeaders := Headers_set (js "X-Cache-Time") (now w) cacheHeaders in
                   let* stored := liftM (new_Response true finalBody 200 [] cacheHeaders) in
                   waitUntil_put cacheKey stored
                 else retM tt) in
      liftM (addCorsHeaders finalResponse origin) in
    if wantJson && isRssFeed contentType body then
      match parseRssToJson body targetUrl with
      | Ok parsed => finish (BStringify (json_of_document parsed)) (js "application/json")
      | Throw parseError =>
          let* r := liftM (new_Response true
                      (BStringify (JObj [ ("status", JStr (js "error"));
                                          ("error", JStr (js "Failed to parse RSS feed"));
                                          ("message", JStr parseError) ]%string))
                      500 [] jsonHeaders) in
          liftM (addCorsHeaders r origin)
      end
    else finish (BText body) contentType.

(** The [catch] of the handler. *)
Definition proxy_error (targetUrl origin message : list N) : M Response :=
  let* r := liftM (new_Response true
              (BStringify (JObj [ ("error", JStr (js "Proxy error"));
                                  ("message", JStr message);
                                  ("url", JStr targetUrl) ]%string))
              502 [] jsonHeaders) in
  liftM (addCorsHeaders r origin).

(** The worker's [fetch(request, env, ctx)]. *)
Definition fetch (w : World) (request : Request) : M Response :=
  let origin := or_else (header_Origin request) (js "*") in
  if bool_decide (method request = js "OPTIONS") then
    liftM (new_Response true BNull 200 [] (Headers_of (corsHeaders origin)))
  else if negb (bool_decide (method request = js "GET")) then
    liftM (new_Response true (BText (js "Method not allowed")) 405 [] ∅)
  else
    let wantJson := bool_decide (param_format request = Some (js "json")) in
    match param_url request with
    | None | Some [] =>
        liftM (new_Response true
                 (BStringify (JObj [ ("error", JStr (js "Missing url parameter"));
                                     ("usage", JStr usage) ]%string))
                 400 [] jsonHeaders)
    | Some targetUrl =>
        if negb (isAllowedOrigin targetUrl) then
          liftM (new_Response true
                   (BStringify (JObj [ ("error", JStr (js "Domain not allowed"));
                                       ("allowed", JArr (map JStr ALLOWED_ORIGINS)) ]%string))
                   403 [] jsonHeaders)
        else
          let* cacheKey := liftM (match cache_key (cacheKeyUrl targetUrl wantJson) with
                                  | Some k => Ok k
                                  | None => Throw (js "Invalid URL")
                                  end) in
          match cache w !! cacheKey with
          | Some cachedResponse =>
              let* response := liftM (addCorsHeaders cachedResponse origin) in
              let headers := Headers_set (js "X-Cache") (js "HIT") (resp_headers response) in
              let headers := Headers_set (js "X-Cache-Time")
                               (or_else (Headers_get (js "X-Cache-Time") (resp_headers cachedResponse))
                                        (js "unknown")) headers in
              retM {| resp_status := resp_status response;
                      resp_statusText := resp_statusText response;
                      resp_headers := headers;
                      resp_body := resp_body response |}
          | None =>
              try_catch (fetch_origin w targetUrl origin cacheKey wantJson)
                        (proxy_error targetUrl origin)
          end
    end.

(** The cache after the deferred writes of a request have landed. *)
Definition settle (c : gmap (list N) Response) (events : list Event)
    : gmap (list N) Response :=
  fold_left (fun c e => match e with
                        | EPut k r => <[k := r]> c
                        | EFetch _ _ => c
                        end) events c.

End Worker.

(** ** The cache policy as the specification words it *)

(** Ordered rules over (contentType, hostname); the first rule that
    matches gives the TTL, and 120 is the default. *)
Definition ttl_rules : list ((list N -> list N -> bool) * N) :=
  [ (fun contentType _ => includes contentType (js "xml") || includes contentType (js "rss"), 300);
    (fun _ hostname => includes hostname (js "gdelt"), 180);
    (fun _ hostname => includes hostname (js "coingecko"), 60);
    (fun _ hostname => includes hostname (js "usgs"), 300);
    (fun _ hostname => includes hostname (js "fred"), 3600) ].

Definition ttlFor (contentType hostname : list N) : N :=
  match List.find (fun rule => rule.1 contentType hostname) ttl_rules with
  | Some rule => rule.2
  | None => 120
  end.

(** ** Inputs of the examples *)

Fixpoint up_to (stop : N -> bool) (s : list N) : list N :=
  match s with
  | [] => []
  | c :: s' => if stop c then [] else c :: up_to stop s'
  end.

(** A stand-in for the platform's URL parser in the examples: the text
    after [http://] or [https://] up to the first [/], [?] or [#], when
    it is not empty and has no port or user part. *)
Definition simple_hostname (u : list N) : option (list N) :=
  match (match strip (js "https://") u with
         | Some r => Some r
         | None => strip (js "http://") u
         end) with
  | Some r =>
      let host := up_to (fun c => (c =? 47) || (c =? 63) || (c =? 35)) r in
      if truthy host && forallb (fun c => negb ((c =? 58) || (c =? 64))) host
      then Some host else None
  | None => None
  end.

(** A stand-in for the cache's keying in the examples: the URL text
    itself, when [simple_hostname] accepts it. *)
Definition simple_key (u : list N) : option (list N) :=
  match simple_hostname u with
  | Some _ => Some u
  | None => None
  end.

(** A world with an empty cache and no reachable origin. *)
Definition offline : World :=
  {| cache := ∅; upstream := fun _ => NetworkError (js "fetch failed"); now := js "2024-01-01T00:00:00.000Z" |}.

Definition request_of (m : string) (url format : option (list N)) : Request :=
  {| method := js m; header_Origin := None; param_url := url; param_format := format |}.

(** ** The vocabulary of the statements about the normalizer *)

(** The element texts the normalizer iterates over, and the parser it
    applies to each: entries for an Atom document, items otherwise. *)
Definition elements (xml : list N) : list (list N) :=
  if isAtom xml then match_all true entryRegex xml 0
  else match_all true itemRegex xml 0.

Definition normalize (xml : list N) : list N -> result FeedItem :=
  if isAtom xml then parseAtomEntry else parseRssItem.

(** [sub] occurs in [s], up to the case of ASCII letters. *)
Definition includes_ci (s sub : list N) : bool :=
  includes (map canon s) (map canon sub).



(** A field is missing from a text when none of the tags it is read
    from is found there: every extraction gives [null]. *)
Definition missing (found : list (result (option (list N)))) : Prop :=
  Forall (fun r => r = Ok None) found.

(** Every field of [i] that is missing from the item text [e] is the
    empty string. *)
Definition rss_fields_default (e : list N) (i : FeedItem) : Prop :=
  (missing [extractTag e (js "title")] -> item_title i = [])
  /\ (missing [extractTag e (js "pubDate"); extractTag e (js "dc:date")] -> item_pubDate i = [])
  /\ (missing [extractTag e (js "link"); extractTag e (js "guid")] -> item_link i = [])
  /\ (missing [extractTag e (js "description")] -> item_description i = [])
  /\ (missing [extractTag e (js "content:encoded"); extractTag e (js "content")] ->
      item_content i = []).

Definition atom_fields_default (e : list N) (i : FeedItem) : Prop :=
  (missing [extractTag e (js "title")] -> item_title i = [])
  /\ (missing [extractTag e (js "published"); extractTag e (js "updated")] -> item_pubDate i = [])
  /\ (search true linkRegex e = None -> missing [extractTag e (js "link")] -> item_link i = [])
  /\ (missing [extractTag e (js "summary"); extractTag e (js "content")] ->
      item_description i = [])
  /\ (missing [extractTag e (js "content")] -> item_content i = []).





(** A channel without a title or a link of its own, with one item. *)
Definition bare_channel : list N :=
  js "<rss><channel><item><title>First item</title><link>https://example.org/1</link></item></channel></rss>".

(** An Atom document that declares the namespace in single quotes, and
    the same document with the declaration in double quotes. *)
Definition atom_entries : list N :=
  js "<title>Atom feed</title>"
     ++ js "<entry><title>First entry</title><link href='https://example.org/1'/></entry>"
     ++ js "</feed>".

Definition single_quoted_atom : list N :=
  js "<feed xmlns='http://www.w3.org/2005/Atom'>" ++ atom_entries.

Definition double_quoted_atom : list N :=
  js "<feed " ++ atomNamespace ++ js ">" ++ atom_entries.

(** An Atom document that also holds a channel element with an item. *)
Definition atom_with_channel : list N :=
  js "<feed " ++ atomNamespace ++ js "><title>Mixed</title>"
     ++ js "<channel><item><title>From the item</title></item></channel>"
     ++ js "<entry><title>From the entry</title><link href='https://example.org/e'/></entry>"
     ++ js "</feed>".

(** The same document without the namespace declaration. *)
Definition channel_without_marker : list N :=
  js "<feed><title>Mixed</title>"
     ++ js "<channel><item><title>From the item</title></item></channel>"
     ++ js "<entry><title>From the entry</title><link href='https://example.org/e'/></entry>"
     ++ js "</feed>".


(** A GET request for a target URL, raw or with [format=json]. *)
Definition get_request (origin : option (list N)) (targetUrl : list N) (wantJson : bool)
    : Request :=
  {| method := js "GET"; header_Origin := origin; param_url := Some targetUrl;
     param_format := if wantJson then Some (js "json") else None |}.

(** A world whose origins all serve one small feed, with an empty
    cache, and the world after a JSON request for the BBC feed has been
    answered there and its deferred cache write has landed. *)
Definition bbc_feed : list N := js "https://feeds.bbci.co.uk/news/rss.xml".

Definition small_feed : list N :=
  js "<rss><channel><title>News</title><item><title>A</title></item><item><title>B</title></item></channel></rss>".

Definition feed_origin : World :=
  {| cache := ∅;
     upstream := fun _ => Upstream 200 (js "OK") (Some (js "application/rss+xml")) (Ok small_feed);
     now := js "2024-01-01T00:00:00.000Z" |}.

Definition after_json_request : World :=
  {| cache := settle (cache feed_origin)
                (fetch simple_hostname simple_key feed_origin (get_request None bbc_feed true)).2;
     upstream := upstream feed_origin;
     now := now feed_origin |}.

(** ** The stores of the dashboard

    The first two parts of [news.ts.orig] are Svelte stores: a writable
    holds a state, [update(fn)] replaces it by [fn(state)] and [set]
    by a given state.  A method of a store is the function it passes
    to [update]; [Date.now()] is an argument. *)

Module NiftyStore.

Section Nifty.

(** The type [NiftyStock] of [$lib/types], of which the store reads
    nothing. *)
Variable NiftyStock : Type.

Record NiftyState := {
  items : list NiftyStock;
  loading : bool;
  error : option (list N);
  lastUpdated : option N
}.

Definition createInitialState : NiftyState :=
  {| items := []; loading := false; error := None; lastUpdated := None |}.

Definition setLoading (loading' : bool) (state : NiftyState) : NiftyState :=
  {| items := items state;
     loading := loading';
     error := if loading' then None else error state;
     lastUpdated := lastUpdated state |}.

Definition setError (error' : option (list N)) (state : NiftyState) : NiftyState :=
  {| items := items state; loading := false; error := error';
     lastUpdated := lastUpdated state |}.

Definition setItems (items' : list NiftyStock) (now : N) (state : NiftyState)
    : NiftyState :=
  {| items := items'; loading := false; error := None; lastUpdated := Some now |}.

Definition clear (state : NiftyState) : NiftyState := createInitialState.

(** A call of one of the four methods, and a session of calls on a new
    store. *)
Inductive Call :=
| SetLoading (loading' : bool)
| SetError (error' : option (list N))
| SetItems (items' : list NiftyStock) (now : N)
| Clear.

Definition call (state : NiftyState) (c : Call) : NiftyState :=
  match c with
  | SetLoading l => setLoading l state
  | SetError e => setError e state
  | SetItems i now => setItems i now state
  | Clear => clear state
  end.

Definition session (calls : list Call) : NiftyState :=
  fold_left call calls createInitialState.

End Nifty.

End NiftyStore.

Module NewsStore.

Inductive NewsCategory := politics | tech | finance | gov | ai | intel.

#[global] Instance NewsCategory_eq_dec : EqDecision NewsCategory.
Proof. solve_decision. Defined.

Definition NEWS_CATEGORIES : list NewsCategory :=
  [politics; tech; finance; gov; ai; intel].

Section News.

(** What a [NewsItem] of [$lib/types] holds besides the fields the
    store reads or writes. *)
Variable Other : Type.

Record NewsItem := {
  news_id : list N;
  news_title : list N;
  news_description : option (list N);
  news_isAlert : option bool;
  news_alertKeyword : option (list N);
  news_region : option (list N);
  news_topics : option (list (list N));
  news_other : Other
}.

(** The analysis functions of [$lib/config]: the alert flag with its
    keyword, the region (or [null]) and the topics of a text. *)
Variable containsAlertKeyword : list N -> bool * option (list N).
Variable detectRegion : list N -> option (list N).
Variable detectTopics : list N -> list (list N).

Record CategoryState := {
  items : list NewsItem;
  loading : bool;
  error : option (list N);
  lastUpdated : option N
}.

Record NewsState := {
  categories : NewsCategory -> CategoryState;
  initialized : bool
}.

(** Create initial state for a category. *)
Definition createCategoryState : CategoryState :=
  {| items := []; loading := false; error := None; lastUpdated := None |}.

(** Create initial state. *)
Definition createInitialState : NewsState :=
  {| categories := fold_left (fun categories category =>
                                <[category := createCategoryState]> categories)
                     NEWS_CATEGORIES (fun _ => createCategoryState);
     initialized := false |}.

(** Enrich news item with analysis. *)
Definition enrichNewsItem (item : NewsItem) : NewsItem :=
  let text := news_title item ++ js " " ++ or_else (news_description item) [] in
  let alertResult := containsAlertKeyword text in
  {| news_id := news_id item;
     news_title := news_title item;
     news_description := news_description item;
     news_isAlert := Some alertResult.1;
     news_alertKeyword := alertResult.2;
     news_region := match news_region item with
                    | Some r => Some r
                    | None => detectRegion text
                    end;
     news_topics := Some (match news_topics item with
                          | Some t => t
                          | None => detectTopics text
                          end);
     news_other := news_other item |}.

(** An item carries the analysis of its own text: the alert flag and
    keyword that [containsAlertKeyword] gives for its title and
    description, and topics. *)
Definition analysed (i : NewsItem) : Prop :=
  let text := news_title i ++ js " " ++ or_else (news_description i) [] in
  news_isAlert i = Some (containsAlertKeyword text).1
  /\ news_alertKeyword i = (containsAlertKeyword text).2
  /\ is_Some (news_topics i).

Definition init (state : NewsState) : NewsState :=
  {| categories := categories state; initialized := true |}.

Definition setLoading (category : NewsCategory) (loading' : bool) (state : NewsState)
    : NewsState :=
  {| categories :=
       <[category := {| items := items (categories state category);
                        loading := loading';
                        error := if loading' then None
                                 else error (categories state category);
                        lastUpdated := lastUpdated (categories state category) |}]>
         (categories state);
     initialized := initialized state |}.

Definition setError (category : NewsCategory) (error' : option (list N))
    (state : NewsState) : NewsState :=
  {| categories :=
       <[category := {| items := items (categories state category);
                        loading := false;
                        error := error';
                        lastUpdated := lastUpdated (categories state category) |}]>
         (categories state);
     initialized := initialized state |}.

Definition setItems (category : NewsCategory) (items' : list NewsItem) (now : N)
    (state : NewsState) : NewsState :=
  let enrichedItems := map enrichNewsItem items' in
  {| categories :=
       <[category := {| items := enrichedItems; loading := false; error := None;
                        lastUpdated := Some now |}]>
         (categories state);
     initialized := initialized state |}.

(** Append items to a category (for pagination): the items whose id is
    not among the existing ones. *)
Definition appendItems (category : NewsCategory) (items' : list NewsItem) (now : N)
    (state : NewsState) : NewsState :=
  let enrichedItems := map enrichNewsItem items' in
  let existing := items (categories state category) in
  let existingIds := map news_id existing in
  let newItems := List.filter (fun i => negb (bool_decide (news_id i ∈ existingIds)))
                    enrichedItems in
  {| categories :=
       <[category := {| items := existing ++ newItems; loading := false; error := None;
                        lastUpdated := Some now |}]>
         (categories state);
     initialized := initialized state |}.

Definition getItems (category : NewsCategory) (state : NewsState) : list NewsItem :=
  items (categories state category).

(** [getAllItems] and the derived store [allNewsItems]. *)
Definition getAllItems (state : NewsState) : list NewsItem :=
  fold_left (fun allItems category => allItems ++ items (categories state category))
    NEWS_CATEGORIES [].

Definition clearCategory (category : NewsCategory) (state : NewsState) : NewsState :=
  {| categories := <[category := createCategoryState]> (categories state);
     initialized := initialized state |}.

Definition clearAll (state : NewsState) : NewsState := createInitialState.

(** [isAnyLoading] and the derived store [isLoading]. *)
Definition isAnyLoading (state : NewsState) : bool :=
  existsb (fun cat => loading (categories state cat)) NEWS_CATEGORIES.

(** The derived store [hasErrors]. *)
Definition hasErrors (state : NewsState) : bool :=
  existsb (fun cat => bool_decide (error (categories state cat) <> None)) NEWS_CATEGORIES.

(** A call of one of the methods that change the store, and a session
    of calls on a new store. *)
Inductive Call :=
| Init
| SetLoading (category : NewsCategory) (loading' : bool)
| SetError (category : NewsCategory) (error' : option (list N))
| SetItems (category : NewsCategory) (items' : list NewsItem) (now : N)
| AppendItems (category : NewsCategory) (items' : list NewsItem) (now : N)
| ClearCategory (category : NewsCategory)
| ClearAll.

Definition call (state : NewsState) (c : Call) : NewsState :=
  match c with
  | Init => init state
  | SetLoading cat l => setLoading cat l state
  | SetError cat e => setError cat e state
  | SetItems cat i now => setItems cat i now state
  | AppendItems cat i now => appendItems cat i now state
  | ClearCategory cat => clearCategory cat state
  | ClearAll => clearAll state
  end.

Definition session (calls : list Call) : NewsState :=
  fold_left call calls createInitialState.

End News.

End NewsStore.

(** ** The vocabulary of the statements about the handler *)

(** A response with the four CORS headers set over its own. *)
Definition with_cors (response : Response) (origin : list N) : Response :=
  {| resp_status := resp_status response;
     resp_statusText := resp_statusText response;
     resp_headers :=
       Headers_set (js "Access-Control-Max-Age") (js "86400")
         (Headers_set (js "Access-Control-Allow-Headers") (js "Content-Type, Accept")
            (Headers_set (js "Access-Control-Allow-Methods") (js "GET, HEAD, OPTIONS")
               (Headers_set (js "Access-Control-Allow-Origin") (or_else (Some origin) (js "*"))
                  (resp_headers response))));
     resp_body := resp_body response |}.

(** The response built on a miss, before the CORS headers, and the
    entry written to the cache for it. *)
Definition miss_response (body : Body) (contentType : list N) (cacheTtl : N) : Response :=
  {| resp_status := 200;
     resp_statusText := [];
     resp_headers := Headers_of [ (js "Content-Type", contentType);
                                  (js "X-Cache", js "MISS");
                                  (js "X-Cache-TTL", String_of_N cacheTtl) ];
     resp_body := body |}.

Definition stored_response (body : Body) (contentType : list N) (cacheTtl : N)
    (now : list N) : Response :=
  {| resp_status := 200;
     resp_statusText := [];
     resp_headers :=
       Headers_set (js "X-Cache-Time") now
         (Headers_set (js "Cache-Control") (js "public, max-age=" ++ String_of_N cacheTtl)
            (resp_headers (miss_response body contentType cacheTtl)));
     resp_body := body |}.

(** The body and content type of a successful miss: the normalized
    document when JSON is asked for and the upstream response is a
    feed, the upstream text and content type otherwise. *)
Definition final_body (wantJson : bool) (contentType body targetUrl : list N) : Body :=
  if wantJson && isRssFeed contentType body then
    match parseRssToJson body targetUrl with
    | Ok parsed => BStringify (json_of_document parsed)
    | Throw _ => BText body
    end
  else BText body.

Definition final_type (wantJson : bool) (contentType body : list N) : list N :=
  if wantJson && isRssFeed contentType body then js "application/json" else contentType.

(** The names of the headers that a cache hit sets over those of the
    stored entry, in lower case. *)
Definition hit_names : list (list N) :=
  map (fun n => map lower (js n))
    [ "Access-Control-Allow-Origin"; "Access-Control-Allow-Methods";
      "Access-Control-Allow-Headers"; "Access-Control-Max-Age";
      "X-Cache"; "X-Cache-Time" ]%string.

(** The flags the handler reads from a request. *)
Definition wantsJson (request : Request) : bool :=
  bool_decide (param_format request = Some (js "json")).

Definition originOf (request : Request) : list N :=
  or_else (header_Origin request) (js "*").

(** A request that passes the gates of the handler: a GET with a
    non-empty url parameter that the allow-list accepts. *)
Definition proxied (URL_hostname : list N -> option (list N)) (request : Request)
    (targetUrl : list N) : Prop :=
  method request = js "GET" /\ param_url request = Some targetUrl
  /\ targetUrl <> [] /\ isAllowedOrigin URL_hostname targetUrl = true.

(** What a cache hit answers, given the stored entry with the CORS
    headers added. *)
Definition hit_response (cachedResponse response : Response) : Response :=
  {| resp_status := resp_status response;
     resp_statusText := resp_statusText response;
     resp_headers :=
       Headers_set (js "X-Cache-Time")
         (or_else (Headers_get (js "X-Cache-Time") (resp_headers cachedResponse))
                  (js "unknown"))
         (Headers_set (js "X-Cache") (js "HIT") (resp_headers response));
     resp_body := resp_body response |}.

(** The entry that the JSON request for the BBC feed leaves in the
    cache of [feed_origin], and a world whose origins answer 404. *)
Definition bbc_entry : Response :=
  stored_response (final_body true (js "application/rss+xml") small_feed bbc_feed)
    (final_type true (js "application/rss+xml") small_feed)
    (getCacheTtl (js "application/rss+xml") (js "feeds.bbci.co.uk"))
    (now feed_origin).

Definition missing_origin : World :=
  {| cache := ∅;
     upstream := fun _ => Upstream 404 (js "Not Found") (Some (js "text/html"))
                            (Ok (js "<html>gone</html>"));
     now := js "2024-01-01T00:00:00.000Z" |}.

(** * Properties *)

(** ** Strings *)

Lemma strip_Some (p s r : list N) : strip p s = Some r <-> s = p ++ r.
Proof.
  revert s; induction p as [|x p IH]; intros [|c s]; simpl.
  - split; congruence.
  - split; congruence.
  - split; [discriminate | intros H; discriminate H].
  - destruct (N.eqb_spec x c) as [->|Hne].
    + rewrite IH. split; [intros ->; reflexivity | intros H; injection H; auto].
    + split; [discriminate | intros H; injection H; intros; congruence].
Qed.

(** [includes] is the substring test. *)
Lemma includes_true (s sub : list N) :
  includes s sub = true <-> exists pre post, s = pre ++ sub ++ post.
Proof.
  induction s as [|c s IH]; simpl.
  - destruct (strip sub []) as [r|] eqn:E.
    + apply strip_Some in E. split; [intros _; exists [], r; exact E | reflexivity].
    + split; [discriminate|]. intros (pre & post & H).
      destruct pre; [|discriminate H]. simpl in H.
      assert (strip sub [] = Some post) by (apply strip_Some; exact H). congruence.
  - destruct (strip sub (c :: s)) as [r|] eqn:E.
    + apply strip_Some in E. split; [intros _; exists [], r; exact E | reflexivity].
    + rewrite IH. split.
      * intros (pre & post & ->). exists (c :: pre), post. reflexivity.
      * intros (pre & post & H). destruct pre as [|c' pre].
        -- simpl in H. assert (strip sub (c :: s) = Some post) by (apply strip_Some; exact H).
           congruence.
        -- injection H as _ ->. exists pre, post. reflexivity.
Qed.

(** ** The matcher *)




(** A code unit that is not a letter is matched, with or without the
    [i] flag, by itself only. *)
Lemma same_not_letter (ic : bool) (x c : N) :
  x < 65 -> same ic x c = true -> c = x.
Proof.
  intros Hx. unfold same, canon. destruct ic.
  - destruct ((97 <=? x) && (x <=? 122)) eqn:Ex.
    { apply andb_true_iff in Ex as [Ex _]. apply N.leb_le in Ex. lia. }
    destruct ((97 <=? c) && (c <=? 122)) eqn:Ec; intros H; apply N.eqb_eq in H.
    + apply andb_true_iff in Ec as [Ec _]. apply N.leb_le in Ec. lia.
    + congruence.
  - intros H; apply N.eqb_eq in H. congruence.
Qed.

(** A pattern that begins with a literal whose first code unit is not
    a letter matches only a text that begins with that code unit. *)
Lemma rmatch_head (ic : bool) (x : N) (p : list N) (r : list atom)
    (cap s : list N) (y : list N * list N) :
  x < 65 -> rmatch ic (Lit (x :: p) :: r) cap s = Some y -> exists s', s = x :: s'.
Proof.
  intros Hx. simpl. destruct s as [|c s]; [discriminate|].
  destruct (same ic x c) eqn:E; [|discriminate].
  apply same_not_letter in E as ->; [eauto | exact Hx].
Qed.

Lemma rmatch_head_None (ic : bool) (x : N) (p : list N) (r : list atom)
    (cap s : list N) :
  x < 65 -> (forall s', s <> x :: s') -> rmatch ic (Lit (x :: p) :: r) cap s = None.
Proof.
  intros Hx Hs. destruct (rmatch ic _ cap s) as [y|] eqn:E; [|reflexivity].
  apply rmatch_head in E as [s' ->]; [|exact Hx]. destruct (Hs s' eq_refl).
Qed.

(** A greedy repetition followed by something its class excludes takes
    the whole run. *)
Lemma rep_run {A} (cls : N -> bool) (min : nat) (k : list N -> list N -> option A)
    (taken run s : list N) (x : A) :
  forallb cls run = true ->
  match s with [] => True | c :: _ => cls c = false end ->
  (min <= length taken + length run)%nat ->
  k (rev taken ++ run) s = Some x ->
  rep cls min true k taken (run ++ s) = Some x.
Proof.
  revert taken. induction run as [|c run IH]; intros taken Hrun Hs Hmin Hk.
  - rewrite app_nil_r in Hk. simpl in Hmin.
    assert (stop min k taken s = Some x) as Hstop.
    { unfold stop. destruct (Nat.leb_spec min (length taken)); [exact Hk | lia]. }
    destruct s as [|c s]; simpl; [exact Hstop|]. rewrite Hs. exact Hstop.
  - simpl in Hrun. apply andb_true_iff in Hrun as [Hc Hrun].
    simpl. rewrite Hc. rewrite (IH (c :: taken)); [reflexivity | exact Hrun | exact Hs | |].
    + simpl in *. lia.
    + simpl. rewrite <- app_assoc. exact Hk.
Qed.

Lemma rep_Some {A} (cls : N -> bool) (min : nat) (greedy : bool)
    (k : list N -> list N -> option A) (taken s : list N) (x : A) :
  rep cls min greedy k taken s = Some x ->
  exists got rest, k (rev taken ++ got) rest = Some x
                   /\ forallb cls got = true
                   /\ (min <= length taken + length got)%nat
                   /\ s = got ++ rest.
Proof.
  assert (forall taken s, stop min k taken s = Some x ->
            exists got rest, k (rev taken ++ got) rest = Some x
                             /\ forallb cls got = true
                             /\ (min <= length taken + length got)%nat
                             /\ s = got ++ rest) as Hstop.
  { intros t u H. unfold stop in H.
    destruct (Nat.leb_spec min (length t)); [|discriminate].
    exists [], u. rewrite app_nil_r. simpl. repeat split; [exact H | lia]. }
  revert taken. induction s as [|c s IH]; intros taken H; simpl in H; [auto|].
  destruct (cls c) eqn:Ec; [|auto].
  assert (rep cls min greedy k (c :: taken) s = Some x ->
          exists got rest, k (rev taken ++ got) rest = Some x
                           /\ forallb cls got = true
                           /\ (min <= length taken + length got)%nat
                           /\ c :: s = got ++ rest) as Hmore.
  { intros H'. apply IH in H' as (got & rest & Hk & Hc & Hm & ->).
    exists (c :: got), rest. simpl in *. rewrite <- app_assoc in Hk. simpl in Hk.
    rewrite Ec. repeat split; [exact Hk | exact Hc | lia]. }
  destruct greedy.
  - destruct (rep cls min true k (c :: taken) s) eqn:E; [injection H as ->; auto | auto].
  - destruct (stop min k taken (c :: s)) eqn:E; [injection H as ->; auto | auto].
Qed.

Lemma lit_Some (ic : bool) (p s rest : list N) :
  lit ic p s = Some rest -> exists m, s = m ++ rest /\ length m = length p.
Proof.
  revert s. induction p as [|x p IH]; intros s H; simpl in H.
  - injection H as ->. exists []. auto.
  - destruct s as [|c s]; [discriminate|]. destruct (same ic x c); [|discriminate].
    apply IH in H as (m & -> & Hm). exists (c :: m). simpl. auto.
Qed.

(** What a pattern matches is a prefix of the text, and atoms without
    a capture group leave the captured text as it is. *)
Lemma rmatch_Some (ic : bool) (r : list atom) (cap s cap' rest : list N) :
  rmatch ic r cap s = Some (cap', rest) ->
  (exists m, s = m ++ rest)
  /\ (Forall (fun a => match a with Rep _ _ _ c => c = false | _ => True end) r ->
      cap' = cap).
Proof.
  revert cap s. induction r as [|a r IH]; intros cap s H; simpl in H.
  - injection H as -> ->. split; [exists []; reflexivity | reflexivity].
  - destruct a as [p|cls|cls min greedy capture].
    + destruct (lit ic p s) as [s'|] eqn:E; [|discriminate].
      apply lit_Some in E as (m & -> & _). apply IH in H as [[m' ->] Hc].
      split; [exists (m ++ m'); rewrite app_assoc; reflexivity|].
      intros Hf. apply Forall_cons in Hf as [_ Hf]. auto.
    + destruct s as [|c s]; [discriminate|]. destruct (cls c); [|discriminate].
      apply IH in H as [[m' ->] Hc].
      split; [exists (c :: m'); reflexivity|].
      intros Hf. apply Forall_cons in Hf as [_ Hf]. auto.
    + apply rep_Some in H as (got & rest' & Hk & _ & _ & ->).
      apply IH in Hk as [[m' ->] Hc].
      split; [exists (got ++ m'); rewrite app_assoc; reflexivity|].
      intros Hf. apply Forall_cons in Hf as [-> Hf]. auto.
Qed.

Lemma lit_canon_Some (p s rest : list N) :
  lit true p s = Some rest -> exists m, s = m ++ rest /\ map canon m = map canon p.
Proof.
  revert s. induction p as [|x p IH]; intros s H; simpl in H.
  - injection H as ->. exists []. auto.
  - destruct s as [|c s]; [discriminate|]. unfold same in H.
    destruct (N.eqb_spec (canon x) (canon c)) as [E|]; [|discriminate].
    apply IH in H as (m & -> & Hm). exists (c :: m). simpl. rewrite Hm, E. auto.
Qed.


Lemma tag_char_literal (c : N) : tag_char c = true -> literal_char c = true.
Proof.
  intros H.
  assert (48 <= c <= 57 \/ 97 <= c <= 122 \/ 65 <= c <= 90 \/ c = 58) as Hc.
  { unfold tag_char, digit in H.
    repeat (apply orb_true_iff in H as [H|H]).
    - apply andb_true_iff in H as [H1 H2]. apply N.leb_le in H1, H2. lia.
    - apply andb_true_iff in H as [H1 H2]. apply N.leb_le in H1, H2. lia.
    - apply andb_true_iff in H as [H1 H2]. apply N.leb_le in H1, H2. lia.
    - apply N.eqb_eq in H. lia. }
  unfold literal_char, syntax_char.
  change (js "^$\.*+?()[]{}|") with [94; 36; 92; 46; 42; 43; 63; 40; 41; 91; 93; 123; 125; 124].
  cbn [existsb].
  repeat match goal with
  | |- context [N.eqb c ?k] =>
      replace (N.eqb c k) with false by (symmetry; apply N.eqb_neq; lia)
  end.
  cbn [orb negb]. rewrite andb_true_r. apply N.ltb_lt. lia.
Qed.

Lemma tag_char_Literal (tagName : list N) :
  forallb tag_char tagName = true -> Literal tagName.
Proof.
  unfold Literal. induction tagName as [|c t IH]; cbn [forallb]; [reflexivity|].
  intros H. apply andb_true_iff in H as [Hc Ht].
  rewrite (tag_char_literal c Hc), (IH Ht). reflexivity.
Qed.

#[global] Hint Extern 1 (Literal _) =>
  (apply tag_char_Literal; assumption) : typeclass_instances.



Lemma includes_ci_true (s a m b sub : list N) :
  s = a ++ m ++ b -> map canon m = map canon sub -> includes_ci s sub = true.
Proof.
  intros -> Hm. unfold includes_ci. apply includes_true.
  exists (map canon a), (map canon b). rewrite !map_app, Hm. reflexivity.
Qed.





Lemma search_nowhere (ic : bool) (r : list atom) (s : list N) :
  (forall a x, s = a ++ x -> rmatch ic r [] x = None) -> search ic r s = None.
Proof.
  induction s as [|c s IH]; intros H.
  - cbn [search]. rewrite (H [] [] eq_refl). reflexivity.
  - cbn [search]. rewrite (H [] (c :: s) eq_refl).
    apply IH. intros a x ->. apply (H (c :: a) x). reflexivity.
Qed.







(** ** Elements found by tag extraction *)











Lemma literal_char_canon (c : N) : literal_char c = true -> literal_char (canon c) = true.
Proof.
  unfold canon. destruct ((97 <=? c) && (c <=? 122)) eqn:E; [|auto].
  intros _. apply andb_true_iff in E as [E1 E2]. apply N.leb_le in E1, E2.
  unfold literal_char, syntax_char.
  change (js "^$\.*+?()[]{}|") with [94; 36; 92; 46; 42; 43; 63; 40; 41; 91; 93; 123; 125; 124].
  cbn [existsb].
  repeat match goal with
  | |- context [N.eqb (c - 32) ?k] =>
      replace (N.eqb (c - 32) k) with false by (symmetry; apply N.eqb_neq; lia)
  end.
  cbn [orb negb]. rewrite andb_true_r. apply N.ltb_lt. lia.
Qed.

#[global] Instance Literal_canon (tagName : list N) :
  Literal tagName -> Literal (map canon tagName).
Proof.
  unfold Literal. induction tagName as [|c t IH]; cbn [forallb map]; [reflexivity|].
  intros H. apply andb_true_iff in H as [Hc Ht].
  rewrite (literal_char_canon c Hc), (IH Ht). reflexivity.
Qed.

(** Names with a hyphen or an underscore are literal. *)
Lemma extractTag_literal_names :
  extractTag (js "<media-group>x</media-group>") (js "media-group") = Ok (Some (js "x"))
  /\ extractTag (js "<a_b><![CDATA[y]]></A_B>") (js "a_b") = Ok (Some (js "y")).
Proof. split; vm_compute; reflexivity. Qed.

(** A document in which the opening tag occurs nowhere has no element
    of the tag. *)
Lemma extractTag_no_tag (xml tagName : list N) `{!Literal tagName} :
  includes_ci xml (js "<" ++ tagName) = false -> extractTag xml tagName = Ok None.
Proof.
  intros H.
  assert (forall r, search true (Lit (js "<" ++ tagName) :: r) xml = None) as Hnone.
  { intros r. apply search_nowhere. intros a x ->. cbn [rmatch].
    destruct (lit true (js "<" ++ tagName) x) as [s1|] eqn:E; [|reflexivity].
    apply lit_canon_Some in E as (m & -> & Hm).
    rewrite (includes_ci_true (a ++ m ++ s1) a m s1 _ eq_refl Hm) in H. discriminate H. }
  unfold extractTag, cdataRegex, regex. rewrite !Hnone. reflexivity.
Qed.



(** ** The cache policy *)

(** C8: [getCacheTtl] is the ordered first-match evaluation of the five
    rules of the specification with default 120, and for every content
    type and host name it returns one of the five TTL values. *)
Theorem getCacheTtl_refines_ttlFor (contentType hostname : list N) :
  getCacheTtl contentType hostname = ttlFor contentType hostname
  /\ In (getCacheTtl contentType hostname) [300; 180; 60; 3600; 120].
Proof.
  unfold getCacheTtl, ttlFor, ttl_rules; simpl.
  destruct (includes contentType (js "xml") || includes contentType (js "rss"));
    [simpl; tauto|].
  destruct (includes hostname (js "gdelt")); [simpl; tauto|].
  destruct (includes hostname (js "coingecko")); [simpl; tauto|].
  destruct (includes hostname (js "usgs")); [simpl; tauto|].
  destruct (includes hostname (js "fred")); simpl; tauto.
Qed.




(** ** The normalizer returns *)

Lemma bind_Ok {A B} (f : A -> result B) (m : result A) (b : B) :
  (m ≫= f) = Ok b <-> exists a, m = Ok a /\ f a = Ok b.
Proof.
  destruct m as [a|e]; simpl; split.
  - intros H; exists a; auto.
  - intros (a' & [= <-] & H); exact H.
  - discriminate.
  - intros (a' & [=] & _).
Qed.

Lemma extractTag_total (xml tagName : list N) `{!Literal tagName} :
  exists o, extractTag xml tagName = Ok o.
Proof.
  unfold extractTag.
  destruct (search true (cdataRegex tagName) xml); [eauto|].
  destruct (search true (regex tagName) xml); eauto.
Qed.

Lemma extractAtomLink_total (entry : list N) :
  exists o, extractAtomLink entry = Ok o.
Proof.
  unfold extractAtomLink. destruct (search true linkRegex entry); [eauto|].
  apply extractTag_total.
Qed.

Lemma or_r_total (a b : result (option (list N))) :
  (exists x, a = Ok x) -> (exists y, b = Ok y) -> exists z, or_r a b = Ok z.
Proof.
  intros [x ->] [y ->]. unfold or_r; simpl.
  destruct x as [s|]; [destruct (truthy s)|]; eauto.
Qed.

Lemma or_d_total (a : result (option (list N))) (d : list N) :
  (exists x, a = Ok x) -> exists s, or_d a d = Ok s.
Proof. intros [x ->]. unfold or_d; simpl. eauto. Qed.

Create HintDb total discriminated.
#[local] Hint Resolve or_r_total or_d_total extractAtomLink_total : total.
#[local] Hint Extern 1 (exists o, extractTag _ _ = Ok o) =>
  (apply extractTag_total) : total.

Lemma parseRssItem_total (item : list N) : exists i, parseRssItem item = Ok i.
Proof.
  unfold parseRssItem.
  repeat match goal with
  | |- exists i, (?m ≫= _) = Ok i =>
      let s := fresh "s" in let E := fresh "E" in
      assert (exists s, m = Ok s) as [s E] by auto 6 with total;
      rewrite E; simpl
  end.
  eauto.
Qed.

Lemma parseAtomEntry_total (entry : list N) : exists i, parseAtomEntry entry = Ok i.
Proof.
  unfold parseAtomEntry.
  repeat match goal with
  | |- exists i, (?m ≫= _) = Ok i =>
      let s := fresh "s" in let E := fresh "E" in
      assert (exists s, m = Ok s) as [s E] by auto 6 with total;
      rewrite E; simpl
  end.
  eauto.
Qed.

(** The loop appends to [acc], in order, the parsed elements that are
    kept. *)
Lemma pushItems_Ok (parse : list N -> result FeedItem) (els : list (list N))
    (acc res : list FeedItem) :
  pushItems parse els acc = Ok res <->
  exists parsed, Forall2 (fun e i => parse e = Ok i) els parsed
                 /\ res = acc ++ List.filter kept parsed.
Proof.
  revert acc; induction els as [|e els IH]; intros acc; simpl.
  - split.
    + intros [= <-]. exists []. split; [constructor | simpl; rewrite app_nil_r; reflexivity].
    + intros (parsed & HF & ->). inversion HF; subst. simpl. rewrite app_nil_r. reflexivity.
  - destruct (parse e) as [i|m] eqn:E.
    + rewrite IH. split.
      * intros (parsed & HF & ->). exists (i :: parsed). split; [constructor; assumption|].
        simpl. destruct (kept i); [rewrite <- app_assoc|]; reflexivity.
      * intros (parsed & HF & ->). inversion HF as [|e' i' els' parsed' Hp HF']; subst.
        assert (i' = i) as -> by congruence.
        exists parsed'. split; [assumption|].
        simpl. destruct (kept i); [rewrite <- app_assoc|]; reflexivity.
    + split; [discriminate|].
      intros (parsed & HF & _). inversion HF; subst. congruence.
Qed.

Lemma pushItems_total (parse : list N -> result FeedItem) (els : list (list N))
    (acc : list FeedItem) :
  (forall e, exists i, parse e = Ok i) -> exists res, pushItems parse els acc = Ok res.
Proof.
  intros Hp. revert acc; induction els as [|e els IH]; intros acc; simpl; [eauto|].
  destruct (Hp e) as [i ->]. apply IH.
Qed.

Lemma normalize_total (xml e : list N) : exists i, normalize xml e = Ok i.
Proof.
  unfold normalize. destruct (isAtom xml);
    [apply parseAtomEntry_total | apply parseRssItem_total].
Qed.

(** [parseRssToJson] returns, and its result is made of the three feed
    fields and the items of the loop. *)
Lemma parseRssToJson_Ok (xml feedUrl : list N) :
  exists title link description its,
    or_d (extractTag xml (js "title")) [] = Ok title
    /\ or_d (extractTag xml (js "link")) feedUrl = Ok link
    /\ or_d (or_r (extractTag xml (js "description")) (extractTag xml (js "subtitle"))) []
       = Ok description
    /\ pushItems (normalize xml) (take 20 (elements xml)) [] = Ok its
    /\ parseRssToJson xml feedUrl =
       Ok {| status := js "ok";
             feed := {| feed_url := feedUrl; feed_title := title; feed_link := link;
                        feed_description := description |};
             items := its |}.
Proof.
  destruct (or_d_total (extractTag xml (js "title")) []) as [title Ht];
    [auto with total|].
  destruct (or_d_total (extractTag xml (js "link")) feedUrl) as [link Hl];
    [auto with total|].
  destruct (or_d_total (or_r (extractTag xml (js "description"))
                             (extractTag xml (js "subtitle"))) []) as [d Hd];
    [auto 6 with total|].
  destruct (pushItems_total (normalize xml) (take 20 (elements xml)) []
              (normalize_total xml)) as [its Hi].
  exists title, link, d, its. repeat split; try assumption.
  unfold parseRssToJson. rewrite Ht, Hl, Hd; simpl.
  unfold normalize, elements in Hi. destruct (isAtom xml); rewrite Hi; reflexivity.
Qed.





(** Which elements the items are read from: the [entry] elements when
    the text contains [<feed] and the namespace declaration in double
    quotes, the [item] elements otherwise. *)
Lemma isAtom_selects (xml feedUrl : list N) :
  exists doc,
    parseRssToJson xml feedUrl = Ok doc
    /\ (includes xml (js "<feed") = true -> includes xml atomNamespace = true ->
        pushItems parseAtomEntry (take 20 (match_all true entryRegex xml 0)) []
        = Ok (items doc))
    /\ (includes xml (js "<feed") = false \/ includes xml atomNamespace = false ->
        pushItems parseRssItem (take 20 (match_all true itemRegex xml 0)) []
        = Ok (items doc)).
Proof.
  destruct (parseRssToJson_Ok xml feedUrl) as (t & l & d & its & _ & _ & _ & Hi & ->).
  eexists; split; [reflexivity|]. simpl.
  unfold normalize, elements, isAtom in Hi. split.
  + intros H1 H2. rewrite H1, H2 in Hi. exact Hi.
  + intros [H|H]; rewrite H in Hi; [|rewrite andb_false_r in Hi]; exact Hi.
Qed.

(** C7: the Atom test looks for the namespace declaration written in
    double quotes.  A document that has it is read from its [entry]
    elements, whatever else it contains (a channel with an item, say);
    every other document is read from its [item] elements.  So an Atom
    feed that declares the namespace on its [feed] element in single
    quotes is read from its [item] elements and loses its entries,
    while the same feed with double quotes yields them. *)
Theorem single_quoted_atom_loses_entries :
  (forall xml feedUrl : list N, exists doc,
      parseRssToJson xml feedUrl = Ok doc
      /\ (includes xml (js "<feed") = true -> includes xml atomNamespace = true ->
          pushItems parseAtomEntry (take 20 (match_all true entryRegex xml 0)) []
          = Ok (items doc))
      /\ (includes xml (js "<feed") = false \/ includes xml atomNamespace = false ->
          pushItems parseRssItem (take 20 (match_all true itemRegex xml 0)) []
          = Ok (items doc))
      /\ (includes xml atomNamespace = false -> match_all true itemRegex xml 0 = [] ->
          items doc = []))
  /\ includes single_quoted_atom (js "<feed xmlns='http://www.w3.org/2005/Atom'>") = true
  /\ length (match_all true entryRegex single_quoted_atom 0) = 1%nat
  /\ isAtom single_quoted_atom = false
  /\ (exists doc, parseRssToJson single_quoted_atom (js "https://example.org/atom") = Ok doc
                  /\ feed_title (feed doc) = js "Atom feed"
                  /\ items doc = [])
  /\ isAtom double_quoted_atom = true
  /\ (exists doc, parseRssToJson double_quoted_atom (js "https://example.org/atom") = Ok doc
                  /\ map item_title (items doc) = [js "First entry"]
                  /\ map item_link (items doc) = [js "https://example.org/1"])
  /\ includes atom_with_channel (js "<channel>") = true
  /\ (exists doc, parseRssToJson atom_with_channel (js "https://example.org/atom") = Ok doc
                  /\ map item_title (items doc) = [js "From the entry"]
                  /\ map item_link (items doc) = [js "https://example.org/e"])
  /\ (exists doc, parseRssToJson channel_without_marker (js "https://example.org/atom") = Ok doc
                  /\ map item_title (items doc) = [js "From the item"]).
Proof.
  split.
  - intros xml feedUrl.
    destruct (isAtom_selects xml feedUrl) as (doc & Hdoc & Hatom & Hrss).
    exists doc. repeat (split; [assumption|]).
    intros Hns Hnone. specialize (Hrss (or_intror Hns)).
    rewrite Hnone in Hrss. simpl in Hrss. congruence.
  - split; [vm_compute; reflexivity|]. split; [vm_compute; reflexivity|].
    split; [vm_compute; reflexivity|].
    split; [eexists; split; [vm_compute; reflexivity|]; split; vm_compute; reflexivity|].
    split; [vm_compute; reflexivity|].
    split; [eexists; split; [vm_compute; reflexivity|]; split; vm_compute; reflexivity|].
    split; [vm_compute; reflexivity|].
    split; [eexists; split; [vm_compute; reflexivity|]; split; vm_compute; reflexivity|].
    eexists; split; vm_compute; reflexivity.
Qed.

(** ** Responses *)

Lemma Headers_get_set_eq (name value : list N) (h : gmap (list N) (list N)) :
  Headers_get name (Headers_set name value h) = Some value.
Proof. unfold Headers_get, Headers_set. apply lookup_insert_eq. Qed.

Lemma Headers_get_set_ne (name name' value : list N) (h : gmap (list N) (list N)) :
  map lower name' <> map lower name ->
  Headers_get name (Headers_set name' value h) = Headers_get name h.
Proof. intros H. unfold Headers_get, Headers_set. apply lookup_insert_ne. exact H. Qed.

Lemma new_Response_Ok (typed : bool) (body : Body) (st : N) (stText : list N)
    (headers : gmap (list N) (list N)) (r : Response) :
  new_Response typed body st stText headers = Ok r ->
  resp_status r = st /\ resp_body r = body /\ resp_statusText r = stText
  /\ (typed = false -> resp_headers r = headers)
  /\ 200 <= st <= 599.
Proof.
  unfold new_Response.
  destruct ((st <? 200) || (599 <? st)) eqn:E; [discriminate|].
  destruct (has_body body && null_body_status st); [discriminate|].
  intros [= <-]; simpl. repeat split; try reflexivity.
  - intros ->. simpl. destruct (Headers_get _ headers); reflexivity.
  - apply orb_false_iff in E as [E _]. apply N.ltb_ge in E. exact E.
  - apply orb_false_iff in E as [_ E]. apply N.ltb_ge in E. exact E.
Qed.

Ltac different_names :=
  let H := fresh in intros H; vm_compute in H; discriminate H.

(** What [addCorsHeaders] returns has the status and body of its
    argument and carries the four CORS headers. *)
Lemma addCorsHeaders_Ok (response r : Response) (origin : list N) :
  addCorsHeaders response origin = Ok r ->
  resp_status r = resp_status response /\ resp_body r = resp_body response
  /\ has_cors r = true.
Proof.
  unfold addCorsHeaders. intros H.
  apply new_Response_Ok in H as (Hs & Hb & _ & Hh & _).
  specialize (Hh eq_refl). repeat split; try assumption.
  unfold has_cors. rewrite Hh. simpl.
  rewrite Headers_get_set_eq.
  rewrite (Headers_get_set_ne (js "Access-Control-Allow-Headers")), Headers_get_set_eq
    by different_names.
  rewrite 2!(Headers_get_set_ne (js "Access-Control-Allow-Methods")), Headers_get_set_eq
    by different_names.
  rewrite 3!(Headers_get_set_ne (js "Access-Control-Allow-Origin")), Headers_get_set_eq
    by different_names.
  reflexivity.
Qed.

Lemma bindM_Ok {A B} (m : M A) (f : A -> M B) (b : B) (ev : list Event) :
  bindM m f = (Ok b, ev) ->
  exists a ev', m = (Ok a, m.2) /\ f a = (Ok b, ev') /\ ev = m.2 ++ ev'.
Proof.
  unfold bindM. destruct m as [[a|e] ev0]; simpl; [|discriminate].
  destruct (f a) as [rb ev'] eqn:E; simpl. intros [= -> <-].
  exists a, ev'. auto.
Qed.

Lemma liftM_Ok {A} (r : result A) (a : A) (ev : list Event) :
  liftM r = (Ok a, ev) -> r = Ok a /\ ev = [].
Proof. unfold liftM. intros [= -> <-]. auto. Qed.

(** ** The early exits of the handler *)

Section Gate.

Variable URL_hostname : list N -> option (list N).
Variable cache_key : list N -> option (list N).

(** C1: three exits of the handler return without the CORS headers:
    the 405 for a POST, the 400 for a GET without a url parameter, and
    the 403 for a GET of a URL outside the allow-list (shown with the
    stand-in URL parser). *)
Theorem early_exits_lack_cors (w : World) :
  (exists r, fetch URL_hostname cache_key w (request_of "POST" None None) = (Ok r, [])
             /\ resp_status r = 405 /\ has_cors r = false)
  /\ (exists r, fetch URL_hostname cache_key w (request_of "GET" None None) = (Ok r, [])
                /\ resp_status r = 400 /\ has_cors r = false)
  /\ (exists r, fetch simple_hostname simple_key w
                  (request_of "GET" (Some (js "https://evil.example.com/feed")) None)
                = (Ok r, [])
                /\ resp_status r = 403 /\ has_cors r = false).
Proof.
  split; [|split]; eexists; (split; [vm_compute; reflexivity|]);
    split; vm_compute; reflexivity.
Qed.

(** C2, amended: a method other than GET and OPTIONS, HEAD included,
    gets the 405 with the text [Method not allowed]; a GET whose url
    parameter is absent or empty gets the 400 with the usage body. *)
Theorem method_gate (w : World) (request : Request) :
  (method request <> js "OPTIONS" -> method request <> js "GET" ->
   exists r, fetch URL_hostname cache_key w request = (Ok r, [])
             /\ resp_status r = 405
             /\ resp_body r = BText (js "Method not allowed"))
  /\ (method request = js "GET" ->
      param_url request = None \/ param_url request = Some [] ->
      exists r, fetch URL_hostname cache_key w request = (Ok r, [])
                /\ resp_status r = 400
                /\ resp_body r = BStringify (JObj [ ("error", JStr (js "Missing url parameter"));
                                                    ("usage", JStr usage) ]%string)).
Proof.
  split.
  - intros Ho Hg. unfold fetch.
    rewrite (bool_decide_eq_false_2 _ Ho), (bool_decide_eq_false_2 _ Hg). simpl.
    eexists. split; [reflexivity|]. split; reflexivity.
  - intros Hg Hu. unfold fetch. rewrite Hg.
    rewrite bool_decide_eq_false_2 by (intros H; vm_compute in H; discriminate H).
    rewrite bool_decide_eq_true_2 by reflexivity. simpl.
    destruct Hu as [-> | ->]; eexists; (split; [reflexivity|]); split; reflexivity.
Qed.

(** C4: [isAllowedOrigin] is false when the URL does not parse, and
    otherwise true exactly when the host name contains an entry of the
    allow-list; a GET whose target URL (a url parameter that is present
    and not empty, the handler's test before the allow-list) fails it
    gets the 403 whose body lists the allow-list, and the handler
    leaves no event: the origin is not fetched. *)
Theorem disallowed_origin_rejected (w : World) (request : Request) (targetUrl : list N) :
  method request = js "GET" ->
  param_url request = Some targetUrl ->
  targetUrl <> [] ->
  isAllowedOrigin URL_hostname targetUrl = false ->
  (forall u, URL_hostname u = None -> isAllowedOrigin URL_hostname u = false)
  /\ (forall u hostname, URL_hostname u = Some hostname ->
        (isAllowedOrigin URL_hostname u = true <->
         exists allowed pre post,
           In allowed ALLOWED_ORIGINS /\ hostname = pre ++ allowed ++ post))
  /\ exists r, fetch URL_hostname cache_key w request = (Ok r, [])
               /\ resp_status r = 403
               /\ resp_body r = BStringify (JObj [ ("error", JStr (js "Domain not allowed"));
                                                   ("allowed", JArr (map JStr ALLOWED_ORIGINS)) ]%string).
Proof.
  intros Hg Hu Hne Hno. split; [|split].
  - intros u H. unfold isAllowedOrigin. rewrite H. reflexivity.
  - intros u hostname H. unfold isAllowedOrigin. rewrite H.
    rewrite existsb_exists. split.
    + intros (a & Hin & Hinc). apply includes_true in Hinc as (pre & post & ->).
      exists a, pre, post. auto.
    + intros (a & pre & post & Hin & ->). exists a. split; [exact Hin|].
      apply includes_true. eauto.
  - unfold fetch. rewrite Hg, Hu.
    rewrite bool_decide_eq_false_2 by (intros H; vm_compute in H; discriminate H).
    rewrite bool_decide_eq_true_2 by reflexivity. simpl.
    destruct targetUrl as [|c t]; [contradiction|].
    rewrite Hno. simpl.
    eexists. split; [reflexivity|]. split; reflexivity.
Qed.

End Gate.

(** A HEAD request without a url parameter is answered 405. *)
Lemma head_request_rejected :
  exists r, fetch simple_hostname simple_key offline (request_of "HEAD" None None) = (Ok r, [])
            /\ resp_status r = 405
            /\ resp_body r = BText (js "Method not allowed").
Proof. eexists. split; [vm_compute; reflexivity|]. split; reflexivity. Qed.

Lemma method_gate_witness :
  (exists r, fetch simple_hostname simple_key offline (request_of "PUT" None None) = (Ok r, [])
             /\ resp_status r = 405
             /\ resp_body r = BText (js "Method not allowed"))
  /\ (exists r, fetch simple_hostname simple_key offline (request_of "GET" None None) = (Ok r, [])
                /\ resp_status r = 400
                /\ resp_body r = BStringify (JObj [ ("error", JStr (js "Missing url parameter"));
                                                    ("usage", JStr usage) ]%string)).
Proof.
  split.
  - apply (proj1 (method_gate simple_hostname simple_key offline (request_of "PUT" None None)));
      intros H; vm_compute in H; discriminate H.
  - apply (proj2 (method_gate simple_hostname simple_key offline (request_of "GET" None None)));
      [reflexivity | left; reflexivity].
Defined.

Lemma disallowed_origin_rejected_witness :
  isAllowedOrigin simple_hostname (js "https://evil.example.com/feed") = false
  /\ exists r, fetch simple_hostname simple_key offline
                 (request_of "GET" (Some (js "https://evil.example.com/feed")) (Some (js "json")))
               = (Ok r, [])
               /\ resp_status r = 403
               /\ resp_body r = BStringify (JObj [ ("error", JStr (js "Domain not allowed"));
                                                   ("allowed", JArr (map JStr ALLOWED_ORIGINS)) ]%string).
Proof.
  split; [reflexivity|].
  apply (disallowed_origin_rejected simple_hostname simple_key offline
           (request_of "GET" (Some (js "https://evil.example.com/feed")) (Some (js "json")))
           (js "https://evil.example.com/feed")).
  - reflexivity.
  - reflexivity.
  - discriminate.
  - reflexivity.
Defined.

(** ** Missing fields *)

Lemma or_d_missing (a : result (option (list N))) (d s : list N) :
  a = Ok None -> or_d a d = Ok s -> s = d.
Proof. intros -> H. change (Ok d = Ok s) in H. congruence. Qed.

Lemma or_r_missing (a b : result (option (list N))) :
  a = Ok None -> or_r a b = b.
Proof. intros ->. reflexivity. Qed.

Ltac use_missing :=
  unfold missing; intros;
  repeat match goal with
  | H : Forall _ (_ :: _) |- _ => apply Forall_cons in H as [? H]
  end;
  repeat match goal with
  | H : extractTag ?e ?t = Ok None, E : context [or_r (extractTag ?e ?t) _] |- _ =>
      rewrite (or_r_missing _ _ H) in E
  end;
  repeat match goal with
  | H : extractTag ?e ?t = Ok None, E : or_d (extractTag ?e ?t) _ = Ok _ |- _ =>
      apply (or_d_missing _ _ _ H) in E
  end;
  try assumption; try (symmetry; assumption).

Lemma parseRssItem_fields (e : list N) (i : FeedItem) :
  parseRssItem e = Ok i -> rss_fields_default e i.
Proof.
  unfold parseRssItem. intros H.
  apply bind_Ok in H as (title & Ht & H).
  apply bind_Ok in H as (pubDate & Hp & H).
  apply bind_Ok in H as (link & Hl & H).
  apply bind_Ok in H as (description & Hd & H).
  apply bind_Ok in H as (content & Hc & H).
  injection H as <-. unfold rss_fields_default; simpl.
  repeat split; use_missing.
Qed.

Lemma parseAtomEntry_fields (e : list N) (i : FeedItem) :
  parseAtomEntry e = Ok i -> atom_fields_default e i.
Proof.
  unfold parseAtomEntry. intros H.
  apply bind_Ok in H as (title & Ht & H).
  apply bind_Ok in H as (pubDate & Hp & H).
  apply bind_Ok in H as (link & Hl & H).
  apply bind_Ok in H as (description & Hd & H).
  apply bind_Ok in H as (content & Hc & H).
  injection H as <-. unfold atom_fields_default; simpl.
  repeat split; try (use_missing; fail).
  intros Hs Hm. unfold extractAtomLink in Hl. rewrite Hs in Hl.
  revert Hm. use_missing.
Qed.

(** ** The parse-failure branch *)

(** A response of the [try] block has status 500 only when the origin
    itself answered 500: the branch that reports a parse failure is not
    taken. *)
Lemma fetch_origin_500 (URL_hostname : list N -> option (list N)) (w : World)
    (targetUrl origin cacheKey : list N) (wantJson : bool) (r : Response)
    (ev : list Event) :
  fetch_origin URL_hostname w targetUrl origin cacheKey wantJson = (Ok r, ev) ->
  resp_status r = 500 ->
  exists stText contentType text, upstream w targetUrl = Upstream 500 stText contentType text.
Proof.
  unfold fetch_origin. intros H Hs.
  apply bindM_Ok in H as (hostname & ev1 & _ & H & _).
  apply bindM_Ok in H as ([[[st stText] ct] text] & ev2 & Hf & H & _).
  unfold do_fetch in Hf. destruct (upstream w targetUrl) as [e|st' stText' ct' text'] eqn:Hup;
    [discriminate Hf|].
  injection Hf as -> -> -> ->. cbv zeta in H.
  destruct (negb ((200 <=? st) && (st <=? 299))).
  - apply bindM_Ok in H as (r0 & ev3 & H0 & H & _).
    apply liftM_Ok in H0 as [H0 _]. apply new_Response_Ok in H0 as (Hst & _).
    apply liftM_Ok in H as [H _]. apply addCorsHeaders_Ok in H as (Hst' & _).
    assert (st = 500) as -> by congruence. eauto.
  - exfalso.
    apply bindM_Ok in H as (body & ev3 & _ & H & _).
    assert (forall b ct', bindM (liftM (new_Response true b 200 []
              (Headers_of [ (js "Content-Type", ct'); (js "X-Cache", js "MISS");
                            (js "X-Cache-TTL", String_of_N (getCacheTtl (or_else ct []) hostname)) ])))
            (fun finalResponse =>
               bindM (if 0 <? getCacheTtl (or_else ct []) hostname
                      then bindM (liftM (new_Response true b 200 []
                                    (Headers_set (js "X-Cache-Time") (now w)
                                       (Headers_set (js "Cache-Control")
                                          (js "public, max-age=" ++ String_of_N (getCacheTtl (or_else ct []) hostname))
                                          (resp_headers finalResponse)))))
                             (fun stored => waitUntil_put cacheKey stored)
                      else retM tt)
                 (fun _ => liftM (addCorsHeaders finalResponse origin))) = (Ok r, ev3) -> False)
      as Hfinish.
    { intros b ct' Hb.
      apply bindM_Ok in Hb as (fr & ev4 & Hfr & Hb & _).
      apply liftM_Ok in Hfr as [Hfr _]. apply new_Response_Ok in Hfr as (Hst & _).
      apply bindM_Ok in Hb as (u & ev5 & _ & Hb & _).
      apply liftM_Ok in Hb as [Hb _]. apply addCorsHeaders_Ok in Hb as (Hst' & _).
      rewrite Hst', Hst in Hs. discriminate Hs. }
    destruct (wantJson && isRssFeed (or_else ct []) body).
    + destruct (parseRssToJson_Ok body targetUrl) as (t & l & d & its & _ & _ & _ & _ & Hp).
      rewrite Hp in H. exact (Hfinish _ _ H).
    + exact (Hfinish _ _ H).
Qed.

(** Two feeds with missing fields that are not the empty string.  In
    a feed without any link element the feed link is the feed URL.  In
    a channel without a title or link of its own, the feed title and
    link are those of the first item. *)
Lemma missing_feed_fields_not_empty :
  (extractTag (js "<rss><channel><title>T</title></channel></rss>") (js "link") = Ok None
   /\ exists doc,
        parseRssToJson (js "<rss><channel><title>T</title></channel></rss>")
          (js "https://feeds.bbci.co.uk/news/rss.xml") = Ok doc
        /\ feed_link (feed doc) = js "https://feeds.bbci.co.uk/news/rss.xml"
        /\ feed_link (feed doc) <> [])
  /\ exists doc,
       parseRssToJson bare_channel (js "https://example.org/feed") = Ok doc
       /\ feed_title (feed doc) = js "First item"
       /\ feed_link (feed doc) = js "https://example.org/1"
       /\ map item_title (items doc) = [js "First item"]
       /\ feed_title (feed doc) <> [].
Proof.
  split.
  - split; [vm_compute; reflexivity|].
    eexists. split; [vm_compute; reflexivity|]. split; [reflexivity | discriminate].
  - eexists. split; [vm_compute; reflexivity|].
    split; [reflexivity|]. split; [reflexivity|]. split; [reflexivity | discriminate].
Qed.

(** C10, amended: for every text and feed URL [parseRssToJson] returns
    a document, never throws.  A field is the empty string when none of
    its tags is found in the text it is read from: the text of its own
    element for an item field (every item comes from one of the first
    20 elements), and the whole document for the title and the
    description of the feed, which are the empty string in particular
    when the document has no title element, or no description and no
    subtitle element, at all.  The link of the feed is then the feed
    URL, not the empty string.  The handler's [try] block answers 500
    only by passing on an upstream 500, so its parse-failure branch is
    never taken. *)
Theorem parseRssToJson_returns :
  (forall xml feedUrl : list N, exists doc,
      parseRssToJson xml feedUrl = Ok doc
      /\ status doc = js "ok"
      /\ feed_url (feed doc) = feedUrl
      /\ or_d (extractTag xml (js "title")) [] = Ok (feed_title (feed doc))
      /\ or_d (extractTag xml (js "link")) feedUrl = Ok (feed_link (feed doc))
      /\ or_d (or_r (extractTag xml (js "description")) (extractTag xml (js "subtitle"))) []
         = Ok (feed_description (feed doc))
      /\ (missing [extractTag xml (js "title")] -> feed_title (feed doc) = [])
      /\ (missing [extractTag xml (js "link")] -> feed_link (feed doc) = feedUrl)
      /\ (missing [extractTag xml (js "description"); extractTag xml (js "subtitle")] ->
          feed_description (feed doc) = [])
      /\ (includes_ci xml (js "<title") = false -> feed_title (feed doc) = [])
      /\ (includes_ci xml (js "<link") = false -> feed_link (feed doc) = feedUrl)
      /\ (includes_ci xml (js "<description") = false ->
          includes_ci xml (js "<subtitle") = false -> feed_description (feed doc) = [])
      /\ Forall (fun i => exists e,
                   In e (take 20 (elements xml)) /\ normalize xml e = Ok i
                   /\ if isAtom xml then atom_fields_default e i
                      else rss_fields_default e i) (items doc))
  /\ (forall (URL_hostname : list N -> option (list N)) (w : World)
        (targetUrl origin cacheKey : list N) (wantJson : bool) (r : Response)
        (ev : list Event),
        fetch_origin URL_hostname w targetUrl origin cacheKey wantJson = (Ok r, ev) ->
        resp_status r = 500 ->
        exists stText contentType text,
          upstream w targetUrl = Upstream 500 stText contentType text).
Proof.
  split; [|exact fetch_origin_500].
  intros xml feedUrl.
  destruct (parseRssToJson_Ok xml feedUrl) as (t & l & d & its & Ht & Hl & Hd & Hi & ->).
  eexists. split; [reflexivity|]. simpl.
  split; [reflexivity|]. split; [reflexivity|].
  split; [exact Ht|]. split; [exact Hl|]. split; [exact Hd|].
  split; [use_missing|]. split; [use_missing|]. split; [use_missing|].
  split.
  { intros H. rewrite (extractTag_no_tag xml (js "title") H) in Ht.
    exact (or_d_missing _ _ _ eq_refl Ht). }
  split.
  { intros H. rewrite (extractTag_no_tag xml (js "link") H) in Hl.
    exact (or_d_missing _ _ _ eq_refl Hl). }
  split.
  { intros H1 H2. rewrite (extractTag_no_tag xml (js "description") H1),
      (extractTag_no_tag xml (js "subtitle") H2) in Hd.
    exact (or_d_missing _ _ _ eq_refl Hd). }
  apply pushItems_Ok in Hi as (parsed & HF & ->). simpl.
  apply List.Forall_forall. intros i Hin. apply filter_In in Hin as [Hin _].
  revert HF i Hin. generalize (take 20 (elements xml)) as els.
  intros els HF. induction HF as [|e i' els' parsed' Hp HF IH]; intros i Hin.
  - destruct Hin.
  - destruct Hin as [<- | Hin].
    + exists e. split; [left; reflexivity|]. split; [exact Hp|].
      unfold normalize in Hp. destruct (isAtom xml);
        [apply parseAtomEntry_fields | apply parseRssItem_fields]; exact Hp.
    + destruct (IH i Hin) as (e' & He' & Hrest). exists e'.
      split; [right; exact He' | exact Hrest].
Qed.

(** ** The cache key *)

Section CacheKey.

Variable URL_hostname : list N -> option (list N).
Variable cache_key : list N -> option (list N).

(** C9: the raw request for a URL ending in [__json] and the JSON
    request for that URL without the suffix are distinct inputs with
    the same cache key text; when both URLs pass the allow-list and the
    cache holds an entry under that key, the handler answers both
    requests alike, with the body of that entry as a cache hit and
    without fetching. *)
Theorem cache_key_suffix_collision (w : World) (origin : option (list N))
    (U k : list N) (stored : Response) :
  U <> [] ->
  isAllowedOrigin URL_hostname U = true ->
  isAllowedOrigin URL_hostname (U ++ js "__json") = true ->
  cache_key (U ++ js "__json") = Some k ->
  cache w !! k = Some stored ->
  (U ++ js "__json", false) <> (U, true)
  /\ cacheKeyUrl (U ++ js "__json") false = cacheKeyUrl U true
  /\ fetch URL_hostname cache_key w (get_request origin (U ++ js "__json") false)
     = fetch URL_hostname cache_key w (get_request origin U true)
  /\ forall r ev,
       fetch URL_hostname cache_key w (get_request origin (U ++ js "__json") false) = (Ok r, ev) ->
       resp_body r = resp_body stored
       /\ Headers_get (js "X-Cache") (resp_headers r) = Some (js "HIT")
       /\ ev = [].
Proof.
  intros Hne HU HUj Hk Hc.
  assert (forall wantJson T, T <> [] -> isAllowedOrigin URL_hostname T = true ->
            cacheKeyUrl T wantJson = U ++ js "__json" ->
            fetch URL_hostname cache_key w (get_request origin T wantJson) =
            bindM (liftM (addCorsHeaders stored (or_else origin (js "*"))))
              (fun response =>
                 retM {| resp_status := resp_status response;
                         resp_statusText := resp_statusText response;
                         resp_headers :=
                           Headers_set (js "X-Cache-Time")
                             (or_else (Headers_get (js "X-Cache-Time") (resp_headers stored))
                                      (js "unknown"))
                             (Headers_set (js "X-Cache") (js "HIT") (resp_headers response));
                         resp_body := resp_body response |})) as Hhit.
  { intros wantJson T HT Hallowed Hkey. unfold fetch, get_request; simpl.
    destruct T as [|c T]; [contradiction|].
    rewrite Hallowed. simpl negb. cbv iota.
    replace (bool_decide ((if wantJson then Some (js "json") else None) = Some (js "json")))
      with wantJson by (destruct wantJson; reflexivity).
    rewrite Hkey, Hk. unfold bindM at 1. simpl. rewrite Hc.
    match goal with |- _ = ?m => destruct m; reflexivity end. }
  split; [intros H; injection H as _ H; discriminate H|].
  split; [reflexivity|].
  assert (U ++ js "__json" <> []) as Hne' by (destruct U; [contradiction | discriminate]).
  split.
  - rewrite (Hhit false _ Hne' HUj eq_refl), (Hhit true _ Hne HU eq_refl). reflexivity.
  - intros r ev. rewrite (Hhit false _ Hne' HUj eq_refl). intros H.
    apply bindM_Ok in H as (response & ev' & Hr & H & ->).
    apply liftM_Ok in Hr as [Hr _]. apply addCorsHeaders_Ok in Hr as (_ & Hb & _).
    injection H as <- <-. simpl. split; [exact Hb|]. split; [|reflexivity].
    rewrite Headers_get_set_ne by different_names. apply Headers_get_set_eq.
Qed.

End CacheKey.

(** The scenario: once the JSON request for the BBC feed has filled
    the cache, the raw request for that URL with [__json] appended is a
    hit on the normalized JSON body. *)
Lemma cache_key_suffix_collision_witness :
  fetch simple_hostname simple_key after_json_request
    (get_request None (bbc_feed ++ js "__json") false)
  = fetch simple_hostname simple_key after_json_request (get_request None bbc_feed true)
  /\ exists r,
       fetch simple_hostname simple_key after_json_request
         (get_request None (bbc_feed ++ js "__json") false) = (Ok r, [])
       /\ Headers_get (js "X-Cache") (resp_headers r) = Some (js "HIT")
       /\ Headers_get (js "Content-Type") (resp_headers r) = Some (js "application/json")
       /\ exists doc, parseRssToJson small_feed bbc_feed = Ok doc
                      /\ resp_body r = BStringify (json_of_document doc).
Proof.
  assert (exists stored, cache after_json_request !! (bbc_feed ++ js "__json") = Some stored)
    as [stored Hstored] by (eexists; vm_compute; reflexivity).
  destruct (cache_key_suffix_collision simple_hostname simple_key after_json_request None
              bbc_feed (bbc_feed ++ js "__json") stored) as (_ & _ & Heq & _);
    [discriminate | reflexivity | reflexivity | reflexivity | exact Hstored |].
  split; [exact Heq|].
  eexists. split; [vm_compute; reflexivity|].
  split; [vm_compute; reflexivity|]. split; [vm_compute; reflexivity|].
  eexists. split; vm_compute; reflexivity.
Defined.

(** ** Tag extraction *)








(** ** Where the CORS headers are present *)

Lemma has_cors_set (name value : list N) (r : Response) (st : N) (stText : list N)
    (b : Body) :
  Forall (fun n => map lower name <> map lower (js n))
    [ "Access-Control-Allow-Origin"; "Access-Control-Allow-Methods";
      "Access-Control-Allow-Headers"; "Access-Control-Max-Age" ]%string ->
  has_cors {| resp_status := st; resp_statusText := stText;
              resp_headers := Headers_set name value (resp_headers r);
              resp_body := b |} = has_cors r.
Proof.
  intros H. unfold has_cors; simpl.
  repeat (apply Forall_cons in H as [? H]).
  rewrite !Headers_get_set_ne by assumption. reflexivity.
Qed.

Lemma fetch_origin_cors (URL_hostname : list N -> option (list N)) (w : World)
    (targetUrl origin cacheKey : list N) (wantJson : bool) (r : Response)
    (ev : list Event) :
  fetch_origin URL_hostname w targetUrl origin cacheKey wantJson = (Ok r, ev) ->
  has_cors r = true.
Proof.
  unfold fetch_origin. intros H.
  apply bindM_Ok in H as (hostname & ev1 & _ & H & _).
  apply bindM_Ok in H as ([[[st stText] ct] text] & ev2 & _ & H & _).
  cbv zeta in H.
  assert (forall (m : M Response) r0 ev0,
            bindM m (fun x => liftM (addCorsHeaders x origin)) = (Ok r0, ev0) ->
            has_cors r0 = true) as Hwrap.
  { intros m r0 ev0 Hm. apply bindM_Ok in Hm as (x & ev' & _ & Hm & _).
    apply liftM_Ok in Hm as [Hm _]. apply addCorsHeaders_Ok in Hm as (_ & _ & Hm). exact Hm. }
  assert (forall (m : M Response) (put : Response -> M unit) r0 ev0,
            bindM m (fun x => bindM (put x) (fun _ => liftM (addCorsHeaders x origin)))
            = (Ok r0, ev0) -> has_cors r0 = true) as Hfinish.
  { intros m put r0 ev0 Hm. apply bindM_Ok in Hm as (x & ev' & _ & Hm & _).
    apply bindM_Ok in Hm as (u & ev'' & _ & Hm & _).
    apply liftM_Ok in Hm as [Hm _]. apply addCorsHeaders_Ok in Hm as (_ & _ & Hm). exact Hm. }
  destruct (negb ((200 <=? st) && (st <=? 299))); [exact (Hwrap _ _ _ H)|].
  apply bindM_Ok in H as (body & ev3 & _ & H & _).
  destruct (wantJson && isRssFeed (or_else ct []) body).
  - destruct (parseRssToJson body targetUrl);
      [exact (Hfinish _ _ _ _ H) | exact (Hwrap _ _ _ H)].
  - exact (Hfinish _ _ _ _ H).
Qed.

Lemma proxy_error_cors (targetUrl origin message : list N) (r : Response)
    (ev : list Event) :
  proxy_error targetUrl origin message = (Ok r, ev) -> has_cors r = true.
Proof.
  unfold proxy_error. intros H.
  apply bindM_Ok in H as (x & ev' & _ & H & _).
  apply liftM_Ok in H as [H _]. apply addCorsHeaders_Ok in H as (_ & _ & H). exact H.
Qed.

(** Every response of the handler carries the CORS headers, except
    the three early exits (405, 400 and 403), which leave no event. *)
Lemma cors_except_early_exits (URL_hostname cache_key : list N -> option (list N))
    (w : World) (request : Request) (r : Response) (ev : list Event) :
  fetch URL_hostname cache_key w request = (Ok r, ev) ->
  has_cors r = true
  \/ (ev = [] /\ has_cors r = false
      /\ (resp_status r = 405 \/ resp_status r = 400 \/ resp_status r = 403)).
Proof.
  unfold fetch. intros H.
  destruct (bool_decide (method request = js "OPTIONS")).
  { left. injection H as <- _. vm_compute. reflexivity. }
  destruct (bool_decide (method request = js "GET")); simpl in H.
  2: { right. injection H as <- <-. split; [reflexivity|]. split; [reflexivity|]. left. reflexivity. }
  assert (forall b, liftM (new_Response true (BStringify b) 400 [] jsonHeaders) = (Ok r, ev) ->
            ev = [] /\ has_cors r = false
            /\ (resp_status r = 405 \/ resp_status r = 400 \/ resp_status r = 403)) as H400.
  { intros b Hb. injection Hb as <- <-. split; [reflexivity|]. split; [reflexivity|].
    right; left; reflexivity. }
  destruct (param_url request) as [[|c targetUrl]|]; [right; eauto | | right; eauto].
  destruct (negb (isAllowedOrigin URL_hostname (c :: targetUrl))).
  { right. injection H as <- <-. split; [reflexivity|]. split; [reflexivity|].
    right; right; reflexivity. }
  left. apply bindM_Ok in H as (cacheKey & ev1 & _ & H & _).
  destruct (cache w !! cacheKey) as [cachedResponse|].
  - apply bindM_Ok in H as (response & ev2 & Hr & H & _).
    apply liftM_Ok in Hr as [Hr _]. apply addCorsHeaders_Ok in Hr as (_ & _ & Hr).
    injection H as <- _.
    rewrite (has_cors_set (js "X-Cache-Time") _
               {| resp_status := resp_status response;
                  resp_statusText := resp_statusText response;
                  resp_headers := Headers_set (js "X-Cache") (js "HIT") (resp_headers response);
                  resp_body := resp_body response |})
      by (repeat constructor; different_names).
    rewrite has_cors_set by (repeat constructor; different_names). exact Hr.
  - unfold try_catch in H.
    destruct (fetch_origin URL_hostname w (c :: targetUrl) _ cacheKey _) as [[r0|e] ev0] eqn:E;
      cbn [fst snd] in H.
    + injection H as <- _. exact (fetch_origin_cors _ _ _ _ _ _ _ _ E).
    + destruct (proxy_error (c :: targetUrl) _ e) as [r1 ev1'] eqn:E1.
      cbn [fst snd] in H. injection H as -> _.
      exact (proxy_error_cors _ _ _ _ _ E1).
Qed.

(** * Further properties *)

(** ** The Nifty stores *)

(** X1: whatever methods are called on a Nifty store, in whatever
    order, it is never loading while holding an error, and it holds
    items only when it has an update time. *)
Theorem nifty_session_invariant (NiftyStock : Type)
    (calls : list (NiftyStore.Call NiftyStock)) :
  (NiftyStore.loading _ (NiftyStore.session _ calls) = true ->
   NiftyStore.error _ (NiftyStore.session _ calls) = None)
  /\ (NiftyStore.lastUpdated _ (NiftyStore.session _ calls) = None ->
      NiftyStore.items _ (NiftyStore.session _ calls) = []).
Proof.
  unfold NiftyStore.session.
  induction calls as [|c calls IH] using rev_ind; [split; reflexivity|].
  rewrite fold_left_app. simpl.
  destruct IH as [IH1 IH2].
  set (s := fold_left _ calls _) in *.
  destruct c as [[|]|e|i now|]; simpl; split; auto; discriminate.
Qed.

(** ** The news store *)

Section NewsStoreProperties.

Variable Other : Type.
Variable containsAlertKeyword : list N -> bool * option (list N).
Variable detectRegion : list N -> option (list N).
Variable detectTopics : list N -> list (list N).

Abbreviation enrich := (NewsStore.enrichNewsItem Other containsAlertKeyword detectRegion detectTopics).
Abbreviation session := (NewsStore.session Other containsAlertKeyword detectRegion detectTopics).
Abbreviation appendItems := (NewsStore.appendItems Other containsAlertKeyword detectRegion detectTopics).
Abbreviation setItems := (NewsStore.setItems Other containsAlertKeyword detectRegion detectTopics).
Abbreviation call := (NewsStore.call Other containsAlertKeyword detectRegion detectTopics).
Abbreviation analysed := (NewsStore.analysed Other containsAlertKeyword).
Abbreviation text i :=
  (NewsStore.news_title Other i ++ js " " ++ or_else (NewsStore.news_description Other i) []).

(** X2: enriching keeps the id, title, description and the other
    fields of an item, keeps a region and topics the item already has,
    and is idempotent. *)
Theorem enrichNewsItem_idempotent (item : NewsStore.NewsItem Other) :
  enrich (enrich item) = enrich item
  /\ NewsStore.news_id _ (enrich item) = NewsStore.news_id _ item
  /\ NewsStore.news_title _ (enrich item) = NewsStore.news_title _ item
  /\ NewsStore.news_description _ (enrich item) = NewsStore.news_description _ item
  /\ text (enrich item) = text item
  /\ NewsStore.news_other _ (enrich item) = NewsStore.news_other _ item
  /\ (forall r, NewsStore.news_region _ item = Some r ->
        NewsStore.news_region _ (enrich item) = Some r)
  /\ (forall t, NewsStore.news_topics _ item = Some t ->
        NewsStore.news_topics _ (enrich item) = Some t).
Proof.
  destruct item as [i t d a k r tp o]. unfold NewsStore.enrichNewsItem; simpl.
  repeat split.
  - destruct r as [r|]; [reflexivity|]. destruct (detectRegion _); reflexivity.
  - intros r' ->. reflexivity.
  - intros t' ->. reflexivity.
Qed.

Lemma enrich_id (l : list (NewsStore.NewsItem Other)) :
  map (NewsStore.news_id Other) (map enrich l) = map (NewsStore.news_id Other) l.
Proof. rewrite map_map. reflexivity. Qed.

Lemma enrich_analysed (l : list (NewsStore.NewsItem Other)) :
  Forall analysed (map enrich l).
Proof.
  apply List.Forall_forall. intros i Hin. apply in_map_iff in Hin as (j & <- & _).
  destruct j. repeat split. simpl. eauto.
Qed.

(** X3: whatever methods are called on the news store, in whatever
    order, no category is loading while holding an error, a category
    holds items only when it has an update time, and every item it
    holds carries the alert flag and keyword that the analysis gives
    for its own title and description, and has topics. *)
Theorem news_session_invariant
    (calls : list (NewsStore.Call Other)) (category : NewsStore.NewsCategory) :
  (NewsStore.loading _ (NewsStore.categories _ (session calls) category) = true ->
   NewsStore.error _ (NewsStore.categories _ (session calls) category) = None)
  /\ (NewsStore.lastUpdated _ (NewsStore.categories _ (session calls) category) = None ->
      NewsStore.items _ (NewsStore.categories _ (session calls) category) = [])
  /\ Forall analysed (NewsStore.items _ (NewsStore.categories _ (session calls) category)).
Proof.
  unfold NewsStore.session. revert category.
  induction calls as [|c calls IH] using rev_ind; intros category.
  { destruct category; repeat split; constructor. }
  rewrite fold_left_app. simpl.
  set (s := fold_left _ calls _) in *.
  assert (forall cat' (v : NewsStore.CategoryState Other),
            ((NewsStore.loading _ v = true -> NewsStore.error _ v = None)
             /\ (NewsStore.lastUpdated _ v = None -> NewsStore.items _ v = [])
             /\ Forall analysed (NewsStore.items _ v)) ->
            (NewsStore.loading _ ((<[cat' := v]> (NewsStore.categories _ s)) category) = true ->
             NewsStore.error _ ((<[cat' := v]> (NewsStore.categories _ s)) category) = None)
            /\ (NewsStore.lastUpdated _ ((<[cat' := v]> (NewsStore.categories _ s)) category) = None ->
                NewsStore.items _ ((<[cat' := v]> (NewsStore.categories _ s)) category) = [])
            /\ Forall analysed (NewsStore.items _ ((<[cat' := v]> (NewsStore.categories _ s)) category)))
    as Hupd.
  { intros cat' v Hv. destruct (decide (cat' = category)) as [->|Hne].
    - rewrite fn_lookup_insert. exact Hv.
    - rewrite fn_lookup_insert_ne by exact Hne. apply IH. }
  destruct c as [|cat l|cat e|cat i now|cat i now|cat|]; simpl.
  - apply IH.
  - apply Hupd. destruct (IH cat) as (H1 & H2 & H3). simpl.
    destruct l; repeat split; auto; discriminate.
  - apply Hupd. destruct (IH cat) as (H1 & H2 & H3). simpl.
    repeat split; auto; discriminate.
  - apply Hupd. simpl. repeat split; try discriminate. apply enrich_analysed.
  - apply Hupd. destruct (IH cat) as (H1 & H2 & H3). simpl.
    repeat split; try discriminate.
    apply Forall_app. split; [exact H3|].
    apply List.Forall_forall. intros x Hx. apply filter_In in Hx as [Hx _].
    revert x Hx. apply List.Forall_forall. apply enrich_analysed.
  - apply Hupd. simpl. repeat split; constructor.
  - destruct category; repeat split; constructor.
Qed.

Lemma filter_none (A : Type) (f : A -> bool) (l : list A) :
  (forall x, In x l -> f x = false) -> List.filter f l = [].
Proof.
  induction l as [|x l IH]; simpl; intros H; [reflexivity|].
  rewrite (H x) by (left; reflexivity). apply IH. intros y Hy. apply H. right. exact Hy.
Qed.

(** X4: [appendItems] keeps the items of the category in place and
    adds after them, in order, the enriched items of the batch whose
    id no existing item has; it leaves the other categories as they
    are; appending the same batch again adds nothing; and when neither
    the existing items nor the batch repeat an id, the result does not
    either. *)
Theorem appendItems_new_ids (category : NewsStore.NewsCategory)
    (batch : list (NewsStore.NewsItem Other)) (now now' : N)
    (state : NewsStore.NewsState Other) :
  NewsStore.getItems _ category (appendItems category batch now state)
  = NewsStore.getItems _ category state
    ++ List.filter (fun i => negb (bool_decide
                       (NewsStore.news_id _ i
                        ∈ map (NewsStore.news_id _) (NewsStore.getItems _ category state))))
         (map enrich batch)
  /\ (forall other, other <> category ->
        NewsStore.categories _ (appendItems category batch now state) other
        = NewsStore.categories _ state other)
  /\ NewsStore.getItems _ category
        (appendItems category batch now' (appendItems category batch now state))
     = NewsStore.getItems _ category (appendItems category batch now state)
  /\ (NoDup (map (NewsStore.news_id _) (NewsStore.getItems _ category state)) ->
      NoDup (map (NewsStore.news_id _) batch) ->
      NoDup (map (NewsStore.news_id _)
               (NewsStore.getItems _ category (appendItems category batch now state)))).
Proof.
  unfold NewsStore.getItems, NewsStore.appendItems; simpl.
  rewrite !fn_lookup_insert; simpl.
  set (existing := NewsStore.items _ (NewsStore.categories _ state category)).
  split; [reflexivity|]. split.
  { intros other Hne. rewrite fn_lookup_insert_ne by congruence. reflexivity. }
  split.
  - match goal with
    | |- ?X ++ ?F = ?X => assert (F = []) as ->; [|apply app_nil_r]
    end.
    apply filter_none. intros x Hx. apply negb_false_iff, bool_decide_eq_true.
    rewrite map_app, elem_of_app.
    destruct (decide (NewsStore.news_id _ x ∈ map (NewsStore.news_id _) existing))
      as [Hin|Hout]; [left; exact Hin|].
    right. apply list_elem_of_In, in_map, filter_In. split; [exact Hx|].
    apply negb_true_iff, bool_decide_eq_false. exact Hout.
  - intros Hex Hbatch. rewrite map_app. apply NoDup_app. split; [exact Hex|]. split.
    + intros x Hx Hx'. apply list_elem_of_In, in_map_iff in Hx' as (i & <- & Hi).
      apply filter_In in Hi as [_ Hi].
      apply negb_true_iff, bool_decide_eq_false in Hi. contradiction.
    + rewrite <- enrich_id in Hbatch.
      revert Hbatch. generalize (map enrich batch) as l.
      induction l as [|x l IH]; simpl; intros Hnd; [constructor|].
      apply NoDup_cons in Hnd as [Hx Hnd].
      destruct (negb _); [|apply IH; exact Hnd].
      simpl. apply NoDup_cons. split; [|apply IH; exact Hnd].
      intros Hin. apply Hx.
      apply list_elem_of_In, in_map_iff in Hin as (y & Hy & Hin).
      apply filter_In in Hin as [Hin _].
      apply list_elem_of_In, in_map_iff. exists y. auto.
Qed.

(** X5: the list of categories is complete: [getAllItems] holds
    exactly the items of the six categories, category after category
    in the listed order, [isAnyLoading] is true exactly when some
    category is loading and [hasErrors] exactly when some category
    holds an error; what [setItems] stores is read back enriched by
    [getItems], and [clearAll] gives the state of a new store. *)
Theorem categories_complete (state : NewsStore.NewsState Other) :
  NewsStore.getAllItems _ state
  = concat (map (fun cat => NewsStore.getItems _ cat state) NewsStore.NEWS_CATEGORIES)
  /\ (forall i, In i (NewsStore.getAllItems _ state) <->
                exists cat, In i (NewsStore.getItems _ cat state))
  /\ (NewsStore.isAnyLoading _ state = true <->
      exists cat, NewsStore.loading _ (NewsStore.categories _ state cat) = true)
  /\ (NewsStore.hasErrors _ state = true <->
      exists cat, NewsStore.error _ (NewsStore.categories _ state cat) <> None)
  /\ (forall cat l now,
        NewsStore.getItems _ cat (setItems cat l now state) = map enrich l
        /\ NewsStore.getAllItems _ (NewsStore.clearCategory _ cat (setItems cat l now state))
           = NewsStore.getAllItems _ (NewsStore.clearCategory _ cat state))
  /\ (forall cat,
        NewsStore.categories _
          (NewsStore.clearAll _ state) cat
        = NewsStore.createCategoryState _)
  /\ NewsStore.initialized _
       (NewsStore.clearAll _ (NewsStore.init _ state)) = false.
Proof.
  assert (forall cat, In cat NewsStore.NEWS_CATEGORIES) as Hall
    by (intros []; simpl; tauto).
  assert (NewsStore.getAllItems _ state
          = concat (map (fun cat => NewsStore.getItems _ cat state) NewsStore.NEWS_CATEGORIES))
    as Hcat by (unfold NewsStore.getAllItems; simpl; rewrite app_nil_r, <- !app_assoc; reflexivity).
  split; [exact Hcat|]. split.
  { intros i. rewrite Hcat, in_concat. split.
    - intros (l & Hl & Hi). apply in_map_iff in Hl as (cat & <- & _). eauto.
    - intros (cat & Hi). exists (NewsStore.getItems _ cat state).
      split; [|exact Hi].
      apply (in_map (fun cat => NewsStore.getItems _ cat state)). apply Hall. }
  split.
  { unfold NewsStore.isAnyLoading. rewrite existsb_exists. split.
    - intros (cat & _ & H). eauto.
    - intros (cat & H). eauto. }
  split.
  { unfold NewsStore.hasErrors. rewrite existsb_exists. split.
    - intros (cat & _ & H). apply bool_decide_eq_true in H. eauto.
    - intros (cat & H). exists cat. split; [apply Hall|]. apply bool_decide_eq_true. exact H. }
  split.
  { intros cat l now. split.
    - unfold NewsStore.getItems, NewsStore.setItems; simpl. rewrite fn_lookup_insert. reflexivity.
    - unfold NewsStore.getAllItems, NewsStore.clearCategory, NewsStore.setItems; simpl.
      destruct cat; reflexivity. }
  split; [intros []; reflexivity | reflexivity].
Qed.

End NewsStoreProperties.

(** ** Where a pattern can match *)

Lemma search_absent (ic : bool) (x : N) (p : list N) (r : list atom) (s : list N) :
  x < 65 -> ~ In x s -> search ic (Lit (x :: p) :: r) s = None.
Proof.
  intros Hx. induction s as [|c s IH]; intros Hs.
  - unfold search. rewrite rmatch_head_None; [reflexivity | exact Hx | discriminate].
  - change (search ic (Lit (x :: p) :: r) (c :: s))
      with (match rmatch ic (Lit (x :: p) :: r) [] (c :: s) with
            | Some (cap, _) => Some cap
            | None => search ic (Lit (x :: p) :: r) s
            end).
    rewrite rmatch_head_None; [|exact Hx|].
    + apply IH. intros H. apply Hs. right. exact H.
    + intros s' [= -> _]. apply Hs. left. reflexivity.
Qed.

Lemma match_all_absent (ic : bool) (x : N) (p : list N) (r : list atom) (s : list N) :
  x < 65 -> ~ In x s -> match_all ic (Lit (x :: p) :: r) s 0 = [].
Proof.
  intros Hx. induction s as [|c s IH]; intros Hs.
  - unfold match_all. rewrite rmatch_head_None; [reflexivity | exact Hx | discriminate].
  - change (match_all ic (Lit (x :: p) :: r) (c :: s) 0)
      with (match rmatch ic (Lit (x :: p) :: r) [] (c :: s) with
            | Some (_, rest) =>
                take (length (c :: s) - length rest) (c :: s)
                  :: match_all ic (Lit (x :: p) :: r) s (length (c :: s) - length rest - 1)
            | None => match_all ic (Lit (x :: p) :: r) s 0
            end).
    rewrite rmatch_head_None; [|exact Hx|].
    + apply IH. intros H. apply Hs. right. exact H.
    + intros s' [= -> _]. apply Hs. left. reflexivity.
Qed.

Lemma replace_all_step (ic : bool) (r : list atom) (f : list N -> list N)
    (c : N) (s : list N) :
  rmatch ic r [] (c :: s) = None ->
  replace_all ic r f (c :: s) 0 = c :: replace_all ic r f s 0.
Proof. intros H. simpl. rewrite H. reflexivity. Qed.

Lemma replace_all_absent (ic : bool) (x : N) (p : list N) (r : list atom)
    (f : list N -> list N) (s : list N) :
  x < 65 -> ~ In x s -> replace_all ic (Lit (x :: p) :: r) f s 0 = s.
Proof.
  intros Hx. induction s as [|c s IH]; intros Hs.
  - unfold replace_all. rewrite rmatch_head_None; [reflexivity | exact Hx | discriminate].
  - rewrite replace_all_step.
    + rewrite IH; [reflexivity|]. intros H. apply Hs. right. exact H.
    + apply rmatch_head_None; [exact Hx|]. intros s' [= -> _]. apply Hs. left. reflexivity.
Qed.

(** ** Decoding *)

(** X6: a text without an ampersand is its own decoding. *)
Theorem decodeHtmlEntities_plain (text : list N) :
  ~ In 38 text -> decodeHtmlEntities text = text.
Proof.
  intros H. unfold decodeHtmlEntities.
  destruct (negb (truthy text)); [reflexivity|]. cbv zeta.
  change (js "&lt;") with (38 :: js "lt;"). change (js "&gt;") with (38 :: js "gt;").
  change (js "&amp;") with (38 :: js "amp;"). change (js "&quot;") with (38 :: js "quot;").
  change (js "&#39;") with (38 :: js "#39;"). change (js "&apos;") with (38 :: js "apos;").
  change (js "&#x") with (38 :: js "#x"). change (js "&#") with (38 :: js "#").
  repeat rewrite (replace_all_absent _ 38 _ _ _ text) by (first [reflexivity | exact H]).
  reflexivity.
Qed.

Lemma decodeHtmlEntities_plain_witness :
  decodeHtmlEntities (js "Markets rally <b>today</b>") = js "Markets rally <b>today</b>".
Proof.
  apply decodeHtmlEntities_plain. vm_compute. intros H.
  repeat (destruct H as [H|H]; [discriminate H|]). exact H.
Defined.

Lemma replace_all_skip (ic : bool) (r : list atom) (f : list N -> list N) (s : list N) :
  rmatch ic r [] [] = None -> replace_all ic r f s (length s) = [].
Proof.
  intros H. induction s as [|c s IH]; simpl; [rewrite H; reflexivity | exact IH].
Qed.

(** A pass over a text that begins with the only ampersand it holds,
    where the pattern does not match. *)
Lemma replace_head_id (ic : bool) (q : list N) (r : list atom) (f : list N -> list N)
    (rest : list N) :
  rmatch ic (Lit (38 :: q) :: r) [] (38 :: rest) = None ->
  ~ In 38 rest ->
  replace_all ic (Lit (38 :: q) :: r) f (38 :: rest) 0 = 38 :: rest.
Proof.
  intros Hm Hrest. rewrite replace_all_step by exact Hm.
  rewrite replace_all_absent; [reflexivity | reflexivity | exact Hrest].
Qed.

(** A pass whose pattern matches the whole text. *)
Lemma replace_whole (ic : bool) (r : list atom) (f : list N -> list N)
    (c : N) (s cap : list N) :
  rmatch ic r [] (c :: s) = Some (cap, []) ->
  rmatch ic r [] [] = None ->
  replace_all ic r f (c :: s) 0 = f cap.
Proof.
  intros Hm He. simpl. rewrite Hm. simpl. rewrite Nat.sub_0_r.
  rewrite replace_all_skip by exact He. rewrite app_nil_r. reflexivity.
Qed.

Lemma digit_range (c : N) : digit c = true -> 48 <= c <= 57.
Proof.
  unfold digit. intros H. apply andb_true_iff in H as [H1 H2].
  apply N.leb_le in H1, H2. lia.
Qed.

Lemma hex_digit_range (c : N) :
  hex_digit c = true -> 48 <= c <= 57 \/ 97 <= c <= 102 \/ 65 <= c <= 70.
Proof.
  unfold hex_digit. intros H.
  apply orb_true_iff in H as [H|H]; [apply orb_true_iff in H as [H|H]|].
  - left. apply digit_range. exact H.
  - right; left. apply andb_true_iff in H as [H1 H2]. apply N.leb_le in H1, H2. lia.
  - right; right. apply andb_true_iff in H as [H1 H2]. apply N.leb_le in H1, H2. lia.
Qed.

Lemma no_amp_in_digits (cls : N -> bool) (pre ds : list N) :
  (forall c, cls c = true -> 48 <= c) -> forallb cls ds = true -> ~ In 38 pre ->
  ~ In 38 (pre ++ ds ++ [59]).
Proof.
  intros Hcls Hds Hpre H. apply in_app_or in H as [H|H]; [exact (Hpre H)|].
  apply in_app_or in H as [H|[H|[]]]; [|discriminate H].
  rewrite forallb_forall in Hds. specialize (Hcls _ (Hds _ H)). lia.
Qed.

Lemma lit_39_only (ds : list N) :
  forallb digit ds = true -> ds <> [51; 57] ->
  lit false [51; 57; 59] (ds ++ [59]) = None.
Proof.
  intros Hd Hne.
  destruct ds as [|d1 [|d2 [|d3 ds]]]; cbn [lit app]; unfold same.
  - reflexivity.
  - destruct (N.eqb_spec 51 d1); [|reflexivity]. reflexivity.
  - destruct (N.eqb_spec 51 d1) as [<-|]; [|reflexivity].
    destruct (N.eqb_spec 57 d2) as [<-|]; [|reflexivity]. destruct (Hne eq_refl).
  - destruct (N.eqb_spec 51 d1); [|reflexivity]. destruct (N.eqb_spec 57 d2); [|reflexivity].
    cbn [forallb] in Hd. apply andb_true_iff in Hd as [_ Hd]. apply andb_true_iff in Hd as [_ Hd].
    apply andb_true_iff in Hd as [Hd _]. apply digit_range in Hd.
    destruct (N.eqb_spec 59 d3) as [<-|]; [lia | reflexivity].
Qed.

Ltac amp_literals :=
  change (js "&lt;") with (38 :: js "lt;"); change (js "&gt;") with (38 :: js "gt;");
  change (js "&amp;") with (38 :: js "amp;"); change (js "&quot;") with (38 :: js "quot;");
  change (js "&#39;") with (38 :: js "#39;"); change (js "&apos;") with (38 :: js "apos;");
  change (js "&#x") with (38 :: js "#x"); change (js "&#") with (38 :: js "#").

(** X7: a decimal numeric entity decodes to one code unit, the value
    of its digits as a Number taken modulo 65536; so an entity for a
    code point above 65535 gives no surrogate pair but one truncated
    code unit. *)
Theorem decimal_entity_decodes (ds : list N) :
  ds <> [] -> forallb digit ds = true ->
  decodeHtmlEntities (js "&#" ++ ds ++ js ";")
  = fromCharCode (to_double (digits_val 10 ds))
  /\ (digits_val 10 ds < 2 ^ 53 ->
      decodeHtmlEntities (js "&#" ++ ds ++ js ";") = [digits_val 10 ds mod 65536]).
Proof.
  intros Hne Hd.
  assert (decodeHtmlEntities (js "&#" ++ ds ++ js ";")
          = fromCharCode (to_double (digits_val 10 ds))) as Hmain.
  { destruct (decide (ds = [51; 57])) as [->|H39]; [vm_compute; reflexivity|].
    change (js "&#" ++ ds ++ js ";") with (38 :: 35 :: ds ++ [59]).
    assert (~ In 38 (35 :: ds ++ [59])) as Hamp.
    { apply (no_amp_in_digits digit [35] ds); [|exact Hd|].
      - intros c Hc. apply digit_range in Hc. lia.
      - intros [H|[]]. discriminate H. }
    assert (rmatch false [Lit (38 :: js "#39;")] [] (38 :: 35 :: ds ++ [59]) = None) as H39'.
    { change (rmatch false [Lit (38 :: js "#39;")] [] (38 :: 35 :: ds ++ [59]))
        with (match lit false [51; 57; 59] (ds ++ [59]) with
              | Some s' => Some (@nil N, s')
              | None => None
              end).
      rewrite lit_39_only by assumption. reflexivity. }
    destruct ds as [|d ds']; [contradiction|].
    assert (48 <= d <= 57) as Hdr.
    { cbn [forallb] in Hd. apply andb_true_iff in Hd as [Hd _]. apply digit_range. exact Hd. }
    assert (rmatch true [Lit (38 :: js "#x"); Rep hex_digit 1 true true; Lit (js ";")] []
              (38 :: 35 :: (d :: ds') ++ [59]) = None) as Hhex.
    { cbn [rmatch].
      change (lit true (38 :: js "#x") (38 :: 35 :: (d :: ds') ++ [59]))
        with (if same true 120 d then lit true [] (ds' ++ [59]) else None).
      assert (same true 120 d = false) as ->; [|reflexivity].
      unfold same, canon.
      destruct ((97 <=? d) && (d <=? 122)) eqn:E.
      - apply andb_true_iff in E as [E _]. apply N.leb_le in E. lia.
      - change ((97 <=? 120) && (120 <=? 122)) with true. cbv iota.
        apply N.eqb_neq. change (120 - 32) with 88. lia. }
    assert (rmatch false [Lit (38 :: js "#"); Rep digit 1 true true; Lit (js ";")] []
              (38 :: 35 :: (d :: ds') ++ [59]) = Some (d :: ds', [])) as Hdec.
    { change (rmatch false [Lit (38 :: js "#"); Rep digit 1 true true; Lit (js ";")] []
                (38 :: 35 :: (d :: ds') ++ [59]))
        with (rep digit 1 true (fun got s' => rmatch false [Lit (js ";")] got s') []
                ((d :: ds') ++ [59])).
      apply rep_run; [exact Hd | reflexivity | simpl; lia | reflexivity]. }
    unfold decodeHtmlEntities. cbn [truthy negb]. cbv zeta. amp_literals.
    rewrite (replace_head_id false (js "lt;") []) by (first [reflexivity | exact Hamp]).
    rewrite (replace_head_id false (js "gt;") []) by (first [reflexivity | exact Hamp]).
    rewrite (replace_head_id false (js "amp;") []) by (first [reflexivity | exact Hamp]).
    rewrite (replace_head_id false (js "quot;") []) by (first [reflexivity | exact Hamp]).
    rewrite (replace_head_id false (js "#39;") []) by (first [exact H39' | exact Hamp]).
    rewrite (replace_head_id false (js "apos;") []) by (first [reflexivity | exact Hamp]).
    rewrite (replace_head_id true (js "#x")) by (first [exact Hhex | exact Hamp]).
    rewrite (replace_whole false _ _ _ _ _ Hdec) by reflexivity. reflexivity. }
  split; [exact Hmain|].
  intros Hlt. rewrite Hmain. unfold to_double.
  apply N.ltb_lt in Hlt. rewrite Hlt. reflexivity.
Qed.

(** The entity of U+1F600 decodes to the single code unit 0xF600. *)
Lemma decimal_entity_decodes_witness :
  decodeHtmlEntities (js "&#128512;") = [62976].
Proof.
  pose proof (proj2 (decimal_entity_decodes (js "128512") ltac:(discriminate) eq_refl)) as H.
  apply H. reflexivity.
Defined.

(** X8: a hexadecimal numeric entity, written with [x] or [X] and
    digits of either case, decodes to one code unit, the value of its
    digits as a Number taken modulo 65536. *)
Theorem hex_entity_decodes (x : N) (hs : list N) :
  x = 120 \/ x = 88 -> hs <> [] -> forallb hex_digit hs = true ->
  decodeHtmlEntities (js "&#" ++ [x] ++ hs ++ js ";")
  = fromCharCode (to_double (digits_val 16 hs))
  /\ (digits_val 16 hs < 2 ^ 53 ->
      decodeHtmlEntities (js "&#" ++ [x] ++ hs ++ js ";") = [digits_val 16 hs mod 65536]).
Proof.
  intros Hx Hne Hh.
  assert (decodeHtmlEntities (js "&#" ++ [x] ++ hs ++ js ";")
          = fromCharCode (to_double (digits_val 16 hs))) as Hmain.
  { change (js "&#" ++ [x] ++ hs ++ js ";") with (38 :: 35 :: x :: hs ++ [59]).
    assert (~ In 38 (35 :: x :: hs ++ [59])) as Hamp.
    { apply (no_amp_in_digits hex_digit [35; x] hs); [|exact Hh|].
      - intros c Hc. apply hex_digit_range in Hc. lia.
      - intros [H|[H|[]]]; [discriminate H | destruct Hx; subst; discriminate H]. }
    assert (rmatch true [Lit (38 :: js "#x"); Rep hex_digit 1 true true; Lit (js ";")] []
              (38 :: 35 :: x :: hs ++ [59]) = Some (hs, [])) as Hhex.
    { assert (rmatch true [Lit (38 :: js "#x"); Rep hex_digit 1 true true; Lit (js ";")] []
                (38 :: 35 :: x :: hs ++ [59])
              = rep hex_digit 1 true (fun got s' => rmatch true [Lit (js ";")] got s') []
                  (hs ++ [59])) as -> by (destruct Hx; subst; reflexivity).
      apply rep_run; [exact Hh | reflexivity | | reflexivity].
      destruct hs; [contradiction | simpl; lia]. }
    assert (forall c, replace_all false
                        [Lit (38 :: js "#"); Rep digit 1 true true; Lit (js ";")]
                        (fun dec => fromCharCode (to_double (digits_val 10 dec))) [c] 0 = [c])
      as Hone.
    { intros c. rewrite replace_all_step; [reflexivity|].
      cbn [rmatch lit]. destruct (same false 38 c); reflexivity. }
    unfold decodeHtmlEntities. cbn [truthy negb]. cbv zeta. amp_literals.
    rewrite (replace_head_id false (js "lt;") []) by (first [reflexivity | exact Hamp]).
    rewrite (replace_head_id false (js "gt;") []) by (first [reflexivity | exact Hamp]).
    rewrite (replace_head_id false (js "amp;") []) by (first [reflexivity | exact Hamp]).
    rewrite (replace_head_id false (js "quot;") []) by (first [reflexivity | exact Hamp]).
    rewrite (replace_head_id false (js "#39;") [])
      by (first [destruct Hx; subst; reflexivity | exact Hamp]).
    rewrite (replace_head_id false (js "apos;") []) by (first [reflexivity | exact Hamp]).
    rewrite (replace_whole true _ _ _ _ _ Hhex) by reflexivity.
    unfold fromCharCode. destruct (to_double (digits_val 16 hs)); apply Hone. }
  split; [exact Hmain|].
  intros Hlt. rewrite Hmain. unfold to_double.
  apply N.ltb_lt in Hlt. rewrite Hlt. reflexivity.
Qed.

Lemma hex_entity_decodes_witness :
  decodeHtmlEntities (js "&#X1f600;") = [62976].
Proof.
  pose proof (proj2 (hex_entity_decodes 88 (js "1f600") ltac:(right; reflexivity)
                       ltac:(discriminate) eq_refl)) as H.
  apply H. reflexivity.
Defined.

(** ** Texts without markup *)

Lemma extractTag_absent (xml tagName : list N) `{!Literal tagName} :
  ~ In 60 xml -> extractTag xml tagName = Ok None.
Proof.
  intros Hx. unfold extractTag, cdataRegex, regex.
  change (js "<" ++ tagName) with (60 :: tagName).
  rewrite !search_absent by (first [reflexivity | exact Hx]). reflexivity.
Qed.

(** X9: a text without the character [<] (a JSON or plain-text body
    served with a feed content type, say) normalizes to the document
    with no items, an empty title and description, and the feed URL as
    link: it is not an error. *)
Theorem parseRssToJson_no_markup (xml feedUrl : list N) :
  ~ In 60 xml ->
  parseRssToJson xml feedUrl
  = Ok {| status := js "ok";
          feed := {| feed_url := feedUrl; feed_title := []; feed_link := feedUrl;
                     feed_description := [] |};
          items := [] |}.
Proof.
  intros Hx. unfold parseRssToJson.
  rewrite !(extractTag_absent xml) by (first [reflexivity | exact Hx]).
  unfold entryRegex, itemRegex.
  change (js "<entry") with (60 :: js "entry"). change (js "<item") with (60 :: js "item").
  rewrite !match_all_absent by (first [reflexivity | exact Hx]).
  destruct (isAtom xml); reflexivity.
Qed.

Lemma parseRssToJson_no_markup_witness :
  exists doc, parseRssToJson (js "{'error': 'not found'}") (js "https://hnrss.org/x") = Ok doc
              /\ items doc = [] /\ feed_link (feed doc) = js "https://hnrss.org/x".
Proof.
  eexists. split.
  - apply parseRssToJson_no_markup. vm_compute. intros H.
    repeat (destruct H as [H|H]; [discriminate H|]). exact H.
  - split; reflexivity.
Defined.

(** ** What a repetition captures *)

Lemma search_Some (ic : bool) (r : list atom) (s c : list N) :
  search ic r s = Some c ->
  exists pre s' rest, s = pre ++ s' /\ rmatch ic r [] s' = Some (c, rest).
Proof.
  induction s as [|x s IH]; simpl.
  - destruct (rmatch ic r [] []) as [[cap rest]|] eqn:E; [|discriminate].
    intros [= ->]. exists [], [], rest. auto.
  - destruct (rmatch ic r [] (x :: s)) as [[cap rest]|] eqn:E.
    + intros [= ->]. exists [], (x :: s), rest. auto.
    + intros H. apply IH in H as (pre & s' & rest & -> & H).
      exists (x :: pre), s', rest. auto.
Qed.

(** The value the link pattern captures is not empty and holds no
    quote. *)
Lemma linkRegex_capture (s c rest : list N) :
  rmatch true linkRegex [] s = Some (c, rest) ->
  c <> [] /\ forallb not_quote c = true.
Proof.
  unfold linkRegex. cbn [rmatch]. intros H.
  destruct (lit true (js "<link") s) as [s1|]; [|discriminate].
  apply rep_Some in H as (g1 & r1 & H & _ & _ & _). cbn [rmatch] in H.
  destruct (lit true (js "href=") r1) as [s2|]; [|discriminate].
  destruct s2 as [|q s2]; [discriminate|]. destruct (quote q); [|discriminate].
  apply rep_Some in H as (g2 & r2 & H & Hq & Hlen & _).
  destruct r2 as [|q2 r2]; [discriminate|]. destruct (quote q2); [|discriminate].
  apply rep_Some in H as (g3 & r3 & H & _).
  destruct (lit true (js ">") r3); [|discriminate]. injection H as <- _.
  split; [|exact Hq]. simpl in Hlen. destruct g2; [simpl in Hlen; lia | discriminate].
Qed.

(** X10: when an Atom entry has a link tag with a quoted [href], the
    item's link is that attribute value as written (entities are not
    decoded in it); it is not empty and holds no quote, so the entry
    is kept whatever its title. *)
Theorem atom_href_link (entry c : list N) :
  search true linkRegex entry = Some c ->
  c <> [] /\ forallb not_quote c = true
  /\ extractAtomLink entry = Ok (Some c)
  /\ exists i, parseAtomEntry entry = Ok i /\ item_link i = c /\ kept i = true.
Proof.
  intros H.
  assert (c <> [] /\ forallb not_quote c = true) as [Hne Hq].
  { apply search_Some in H as (pre & s' & rest & _ & H). exact (linkRegex_capture _ _ _ H). }
  assert (extractAtomLink entry = Ok (Some c)) as Hl
    by (unfold extractAtomLink; rewrite H; reflexivity).
  repeat split; try assumption.
  destruct (parseAtomEntry_total entry) as [i Hi]. exists i. split; [exact Hi|].
  unfold parseAtomEntry in Hi.
  apply bind_Ok in Hi as (title & _ & Hi). apply bind_Ok in Hi as (pubDate & _ & Hi).
  apply bind_Ok in Hi as (link & Hlink & Hi). apply bind_Ok in Hi as (d & _ & Hi).
  apply bind_Ok in Hi as (ct & _ & Hi). injection Hi as <-.
  rewrite Hl in Hlink. change (Ok (or_else (Some c) []) = Ok link) in Hlink.
  injection Hlink as <-. unfold kept; simpl.
  destruct c; [contradiction|]. simpl. rewrite orb_true_r. auto.
Qed.

Lemma atom_href_link_witness :
  exists i, parseAtomEntry (js "<entry><link rel='alternate' href='https://example.org/a?x=1&amp;y=2'/></entry>")
            = Ok i
            /\ item_title i = []
            /\ item_link i = js "https://example.org/a?x=1&amp;y=2"
            /\ kept i = true.
Proof.
  destruct (atom_href_link
              (js "<entry><link rel='alternate' href='https://example.org/a?x=1&amp;y=2'/></entry>")
              (js "https://example.org/a?x=1&amp;y=2") eq_refl)
    as (_ & _ & _ & i & Hi & Hl & Hk).
  exists i. repeat split; try assumption.
  vm_compute in Hi. injection Hi as <-. reflexivity.
Defined.

(** ** The paths of the handler *)

Lemma bindM_eq {A B} (m : M A) (f : A -> M B) (a : A) (ev ev' : list Event)
    (res : result B) :
  m = (Ok a, ev) -> f a = (res, ev') -> bindM m f = (res, ev ++ ev').
Proof. intros -> H. unfold bindM; simpl. rewrite H. reflexivity. Qed.

Lemma bindM_throw {A B} (m : M A) (f : A -> M B) (e : list N) (ev : list Event) :
  m = (Throw e, ev) -> bindM m f = (Throw e, ev).
Proof. intros ->. reflexivity. Qed.

Lemma new_Response_200 (body : Body) (contentType : list N)
    (headers : gmap (list N) (list N)) :
  Headers_get (js "Content-Type") headers = Some contentType ->
  new_Response true body 200 [] headers
  = Ok {| resp_status := 200; resp_statusText := []; resp_headers := headers;
          resp_body := body |}.
Proof.
  intros H. unfold new_Response. rewrite H.
  change ((200 <? 200) || (599 <? 200)) with false. cbv iota.
  change (null_body_status 200) with false. rewrite andb_false_r. reflexivity.
Qed.

Lemma addCorsHeaders_with_cors (response : Response) (origin : list N) :
  200 <= resp_status response <= 599 ->
  has_body (resp_body response) && null_body_status (resp_status response) = false ->
  addCorsHeaders response origin = Ok (with_cors response origin).
Proof.
  intros [H1 H2] Hb. unfold addCorsHeaders, new_Response. cbv zeta.
  assert ((resp_status response <? 200) || (599 <? resp_status response) = false) as ->.
  { apply orb_false_iff. split; apply N.ltb_ge; assumption. }
  rewrite Hb. cbn [andb]. unfold with_cors. f_equal. f_equal.
  destruct (Headers_get (js "Content-Type") _); reflexivity.
Qed.

Lemma originOf_truthy (request : Request) :
  or_else (Some (originOf request)) (js "*") = originOf request.
Proof.
  unfold originOf. destruct (header_Origin request) as [[|c o]|]; reflexivity.
Qed.

Lemma getCacheTtl_positive (contentType host : list N) :
  (0 <? getCacheTtl contentType host) = true.
Proof.
  unfold getCacheTtl.
  repeat match goal with |- context [if ?b then _ else _] => destruct b end; reflexivity.
Qed.

Lemma miss_response_type (body : Body) (contentType : list N) (cacheTtl : N) :
  Headers_get (js "Content-Type") (resp_headers (miss_response body contentType cacheTtl))
  = Some contentType.
Proof.
  unfold miss_response, Headers_of; simpl.
  rewrite 2!Headers_get_set_ne by different_names. apply Headers_get_set_eq.
Qed.

Lemma stored_response_type (body : Body) (contentType : list N) (cacheTtl : N)
    (now : list N) :
  Headers_get (js "Content-Type")
    (resp_headers (stored_response body contentType cacheTtl now))
  = Some contentType.
Proof.
  unfold stored_response; cbn [resp_headers].
  rewrite 2!Headers_get_set_ne by different_names.
  exact (miss_response_type body contentType cacheTtl).
Qed.

(** The [try] block when the origin answers 2xx and its body is read. *)
Lemma fetch_origin_success (URL_hostname : list N -> option (list N)) (w : World)
    (targetUrl origin cacheKey host stText body : list N) (wantJson : bool) (st : N)
    (ct : option (list N)) :
  URL_hostname targetUrl = Some host ->
  upstream w targetUrl = Upstream st stText ct (Ok body) ->
  200 <= st <= 299 ->
  fetch_origin URL_hostname w targetUrl origin cacheKey wantJson
  = (Ok (with_cors (miss_response (final_body wantJson (or_else ct []) body targetUrl)
                      (final_type wantJson (or_else ct []) body)
                      (getCacheTtl (or_else ct []) host)) origin),
     [ EFetch targetUrl (getCacheTtl [] host);
       EPut cacheKey (stored_response (final_body wantJson (or_else ct []) body targetUrl)
                        (final_type wantJson (or_else ct []) body)
                        (getCacheTtl (or_else ct []) host) (now w)) ]).
Proof.
  intros Hh Hu [H1 H2].
  assert (negb ((200 <=? st) && (st <=? 299)) = false) as Hok.
  { apply negb_false_iff, andb_true_iff. split; apply N.leb_le; assumption. }
  set (ttl := getCacheTtl (or_else ct []) host).
  assert (forall b ctype,
            bindM (liftM (new_Response true b 200 []
                     (Headers_of [ (js "Content-Type", ctype); (js "X-Cache", js "MISS");
                                   (js "X-Cache-TTL", String_of_N ttl) ])))
              (fun finalResponse =>
                 bindM (if 0 <? ttl
                        then bindM (liftM (new_Response true b 200 []
                                      (Headers_set (js "X-Cache-Time") (now w)
                                         (Headers_set (js "Cache-Control")
                                            (js "public, max-age=" ++ String_of_N ttl)
                                            (resp_headers finalResponse)))))
                               (fun stored => waitUntil_put cacheKey stored)
                        else retM tt)
                   (fun _ => liftM (addCorsHeaders finalResponse origin)))
            = (Ok (with_cors (miss_response b ctype ttl) origin),
               [EPut cacheKey (stored_response b ctype ttl (now w))])) as Hfinish.
  { intros b ctype.
    apply (bindM_eq _ _ (miss_response b ctype ttl) []
             [EPut cacheKey (stored_response b ctype ttl (now w))]).
    { unfold liftM. f_equal. apply (new_Response_200 b ctype).
      exact (miss_response_type b ctype ttl). }
    apply (bindM_eq _ _ tt [EPut cacheKey (stored_response b ctype ttl (now w))] []).
    - unfold ttl. rewrite getCacheTtl_positive. fold ttl.
      apply (bindM_eq _ _ (stored_response b ctype ttl (now w)) []
               [EPut cacheKey (stored_response b ctype ttl (now w))]); [|reflexivity].
      unfold liftM. f_equal. apply (new_Response_200 b ctype).
      exact (stored_response_type b ctype ttl (now w)).
    - unfold liftM. f_equal. apply addCorsHeaders_with_cors; simpl; [lia|].
      apply andb_false_r. }
  unfold fetch_origin.
  apply (bindM_eq _ _ host [] [EFetch targetUrl (getCacheTtl [] host);
                               EPut cacheKey _]); [rewrite Hh; reflexivity|].
  apply (bindM_eq _ _ (st, stText, ct, Ok body) [EFetch targetUrl (getCacheTtl [] host)]
           [EPut cacheKey _]); [unfold do_fetch; rewrite Hu; reflexivity|].
  lazy beta iota zeta. rewrite Hok.
  apply (bindM_eq _ _ body [] [EPut cacheKey _]); [reflexivity|].
  unfold final_body, final_type. fold ttl.
  destruct (wantJson && isRssFeed (or_else ct []) body).
  - destruct (parseRssToJson_Ok body targetUrl) as (t & l & d & its & _ & _ & _ & _ & Hp).
    rewrite Hp. apply Hfinish.
  - apply Hfinish.
Qed.

Section HandlerPaths.

Variable URL_hostname : list N -> option (list N).
Variable cache_key : list N -> option (list N).

(** Past the gates the handler looks the key up and either answers
    from the cache or runs the [try] block. *)
Lemma fetch_proxied (w : World) (request : Request) (targetUrl k : list N) :
  proxied URL_hostname request targetUrl ->
  cache_key (cacheKeyUrl targetUrl (wantsJson request)) = Some k ->
  fetch URL_hostname cache_key w request
  = match cache w !! k with
    | Some cachedResponse =>
        bindM (liftM (addCorsHeaders cachedResponse (originOf request)))
          (fun response => retM (hit_response cachedResponse response))
    | None =>
        try_catch (fetch_origin URL_hostname w targetUrl (originOf request) k
                     (wantsJson request))
          (proxy_error targetUrl (originOf request))
    end.
Proof.
  intros (Hg & Hu & Hne & Ha) Hk. unfold fetch. rewrite Hg, Hu.
  rewrite bool_decide_eq_false_2 by (intros H; vm_compute in H; discriminate H).
  rewrite bool_decide_eq_true_2 by reflexivity. cbn [negb].
  destruct targetUrl as [|c t]; [contradiction|].
  rewrite Ha. cbn [negb]. fold (wantsJson request). fold (originOf request).
  rewrite Hk. unfold bindM at 1. cbn [fst snd liftM app].
  match goal with |- (?m.1, ?m.2) = _ => destruct m as [res ev] eqn:E end.
  cbn [fst snd]. rewrite <- E. destruct (cache w !! k); reflexivity.
Qed.

Lemma hit_name_ne (name : list N) (literal : string) :
  ~ In (map lower name) hit_names -> In (map lower (js literal)) hit_names ->
  map lower (js literal) <> map lower name.
Proof. intros Hout Hin Heq. apply Hout. rewrite <- Heq. exact Hin. Qed.

(** X11: a request past the gates whose key is in the cache is
    answered from the entry alone: no upstream request and no cache
    write; status and body are the entry's; the CORS headers are set,
    [X-Cache] is [HIT], [X-Cache-Time] is the entry's or [unknown]
    when the entry has none, and every other header is the entry's. *)
Theorem cache_hit_response (w : World) (request : Request) (targetUrl k : list N)
    (stored : Response) :
  proxied URL_hostname request targetUrl ->
  cache_key (cacheKeyUrl targetUrl (wantsJson request)) = Some k ->
  cache w !! k = Some stored ->
  200 <= resp_status stored <= 599 ->
  has_body (resp_body stored) && null_body_status (resp_status stored) = false ->
  exists r,
    fetch URL_hostname cache_key w request = (Ok r, [])
    /\ resp_status r = resp_status stored
    /\ resp_body r = resp_body stored
    /\ has_cors r = true
    /\ Headers_get (js "Access-Control-Allow-Origin") (resp_headers r)
       = Some (originOf request)
    /\ Headers_get (js "X-Cache") (resp_headers r) = Some (js "HIT")
    /\ Headers_get (js "X-Cache-Time") (resp_headers r)
       = Some (or_else (Headers_get (js "X-Cache-Time") (resp_headers stored))
                       (js "unknown"))
    /\ forall name, ~ In (map lower name) hit_names ->
         Headers_get name (resp_headers r) = Headers_get name (resp_headers stored).
Proof.
  intros Hp Hk Hc Hst Hb.
  exists (hit_response stored (with_cors stored (originOf request))).
  split.
  { rewrite (fetch_proxied w request targetUrl k Hp Hk), Hc.
    apply (bindM_eq _ _ (with_cors stored (originOf request)) [] []); [|reflexivity].
    unfold liftM. f_equal. apply addCorsHeaders_with_cors; assumption. }
  split; [reflexivity|]. split; [reflexivity|]. split.
  { unfold hit_response.
    rewrite (has_cors_set (js "X-Cache-Time") _
               {| resp_status := resp_status (with_cors stored (originOf request));
                  resp_statusText := resp_statusText (with_cors stored (originOf request));
                  resp_headers := Headers_set (js "X-Cache") (js "HIT")
                                    (resp_headers (with_cors stored (originOf request)));
                  resp_body := resp_body (with_cors stored (originOf request)) |})
      by (repeat constructor; different_names).
    rewrite has_cors_set by (repeat constructor; different_names).
    destruct (addCorsHeaders_Ok stored (with_cors stored (originOf request)) (originOf request))
      as (_ & _ & H); [apply addCorsHeaders_with_cors; assumption | exact H]. }
  unfold hit_response, with_cors; cbn [resp_headers].
  split.
  { rewrite !Headers_get_set_ne by different_names.
    rewrite Headers_get_set_eq, originOf_truthy. reflexivity. }
  split; [rewrite Headers_get_set_ne by different_names; apply Headers_get_set_eq|].
  split; [apply Headers_get_set_eq|].
  intros name Hname.
  rewrite !Headers_get_set_ne; [reflexivity|..];
    apply hit_name_ne; try exact Hname; vm_compute; tauto.
Qed.

(** X12: a request past the gates whose key is not in the cache,
    when the origin answers 2xx and its body is read, gets status 200
    with [X-Cache: MISS], the TTL of the policy in [X-Cache-TTL] and
    the CORS headers.  Without [format=json], or when the upstream
    response is not a feed, the body is the upstream text under the
    upstream content type; with [format=json] on a feed it is the
    normalized document as [application/json].  The origin is fetched
    once and one entry is written under the key, with the same body
    and content type, the [X-Cache] and [X-Cache-TTL] headers of the
    response, [Cache-Control: public, max-age=TTL] and the time of the
    request in [X-Cache-Time]: these five headers and no other, so
    none of the CORS headers. *)
Theorem cache_miss_response (w : World) (request : Request)
    (targetUrl k stText body : list N) (st : N) (ct : option (list N)) :
  proxied URL_hostname request targetUrl ->
  cache_key (cacheKeyUrl targetUrl (wantsJson request)) = Some k ->
  cache w !! k = None ->
  upstream w targetUrl = Upstream st stText ct (Ok body) ->
  200 <= st <= 299 ->
  exists r stored host,
    URL_hostname targetUrl = Some host
    /\ fetch URL_hostname cache_key w request
       = (Ok r, [EFetch targetUrl (getCacheTtl [] host); EPut k stored])
    /\ resp_status r = 200 /\ has_cors r = true
    /\ Headers_get (js "X-Cache") (resp_headers r) = Some (js "MISS")
    /\ Headers_get (js "X-Cache-TTL") (resp_headers r)
       = Some (String_of_N (getCacheTtl (or_else ct []) host))
    /\ (wantsJson request && isRssFeed (or_else ct []) body = false ->
        resp_body r = BText body
        /\ Headers_get (js "Content-Type") (resp_headers r) = Some (or_else ct []))
    /\ (wantsJson request && isRssFeed (or_else ct []) body = true ->
        exists doc, parseRssToJson body targetUrl = Ok doc
                    /\ resp_body r = BStringify (json_of_document doc)
                    /\ Headers_get (js "Content-Type") (resp_headers r)
                       = Some (js "application/json"))
    /\ resp_status stored = 200 /\ resp_body stored = resp_body r
    /\ Headers_get (js "Content-Type") (resp_headers stored)
       = Headers_get (js "Content-Type") (resp_headers r)
    /\ Headers_get (js "Cache-Control") (resp_headers stored)
       = Some (js "public, max-age=" ++ String_of_N (getCacheTtl (or_else ct []) host))
    /\ Headers_get (js "X-Cache-Time") (resp_headers stored) = Some (now w)
    /\ has_cors stored = false
    /\ resp_headers stored
       = Headers_of [ (js "Content-Type",
                       final_type (wantsJson request) (or_else ct []) body);
                      (js "X-Cache", js "MISS");
                      (js "X-Cache-TTL", String_of_N (getCacheTtl (or_else ct []) host));
                      (js "Cache-Control",
                       js "public, max-age=" ++ String_of_N (getCacheTtl (or_else ct []) host));
                      (js "X-Cache-Time", now w) ]
    /\ Forall (fun name => Headers_get (js name) (resp_headers stored) = None)
         [ "Access-Control-Allow-Origin"; "Access-Control-Allow-Methods";
           "Access-Control-Allow-Headers"; "Access-Control-Max-Age" ]%string.
Proof.
  intros Hp Hk Hc Hu Hst.
  assert (exists host, URL_hostname targetUrl = Some host) as [host Hh].
  { destruct Hp as (_ & _ & _ & Ha). unfold isAllowedOrigin in Ha.
    destruct (URL_hostname targetUrl); [eauto | discriminate]. }
  pose proof (fetch_origin_success URL_hostname w targetUrl (originOf request) k host
                stText body (wantsJson request) st ct Hh Hu Hst) as Hf.
  set (B := final_body (wantsJson request) (or_else ct []) body targetUrl) in *.
  set (T := final_type (wantsJson request) (or_else ct []) body) in *.
  set (ttl := getCacheTtl (or_else ct []) host) in *.
  exists (with_cors (miss_response B T ttl) (originOf request)),
         (stored_response B T ttl (now w)), host.
  split; [exact Hh|]. split.
  { rewrite (fetch_proxied w request targetUrl k Hp Hk), Hc.
    unfold try_catch. rewrite Hf. reflexivity. }
  split; [reflexivity|]. split.
  { apply (fetch_origin_cors _ _ _ _ _ _ _ _ Hf). }
  assert (Headers_get (js "Content-Type")
            (resp_headers (with_cors (miss_response B T ttl) (originOf request))) = Some T)
    as HT.
  { unfold with_cors; cbn [resp_headers].
    rewrite !Headers_get_set_ne by different_names. apply miss_response_type. }
  split.
  { unfold with_cors, miss_response, Headers_of; simpl.
    rewrite !Headers_get_set_ne by different_names. apply Headers_get_set_eq. }
  split.
  { unfold with_cors, miss_response, Headers_of; simpl.
    rewrite !Headers_get_set_ne by different_names. apply Headers_get_set_eq. }
  split.
  { intros E. rewrite HT. unfold B, T, final_body, final_type. rewrite E. auto. }
  split.
  { intros E. rewrite HT. unfold B, T, final_body, final_type. rewrite E.
    destruct (parseRssToJson_Ok body targetUrl) as (t & l & d & its & _ & _ & _ & _ & Hdoc).
    rewrite Hdoc. eauto. }
  split; [reflexivity|]. split; [reflexivity|]. split.
  { rewrite HT. apply stored_response_type. }
  split.
  { unfold stored_response; cbn [resp_headers].
    rewrite Headers_get_set_ne by different_names. apply Headers_get_set_eq. }
  split; [apply Headers_get_set_eq|].
  split; [vm_compute; reflexivity|].
  split; [reflexivity|].
  unfold stored_response, miss_response, Headers_of; cbn [resp_headers fold_left fst snd].
  repeat constructor;
    rewrite !Headers_get_set_ne by different_names; apply lookup_empty.
Qed.

(** X13: the same request again, once the deferred write of the miss
    has landed, is a hit with the same status, body and content type,
    marked [HIT] and carrying the time of the first request; the
    origin is not fetched again. *)
Theorem miss_then_hit (w w' : World) (request : Request)
    (targetUrl k stText body : list N) (st : N) (ct : option (list N)) :
  proxied URL_hostname request targetUrl ->
  cache_key (cacheKeyUrl targetUrl (wantsJson request)) = Some k ->
  cache w !! k = None ->
  upstream w targetUrl = Upstream st stText ct (Ok body) ->
  200 <= st <= 299 ->
  cache w' = settle (cache w) (fetch URL_hostname cache_key w request).2 ->
  exists r r',
    (fetch URL_hostname cache_key w request).1 = Ok r
    /\ fetch URL_hostname cache_key w' request = (Ok r', [])
    /\ resp_status r' = resp_status r
    /\ resp_body r' = resp_body r
    /\ Headers_get (js "Content-Type") (resp_headers r')
       = Headers_get (js "Content-Type") (resp_headers r)
    /\ Headers_get (js "X-Cache") (resp_headers r) = Some (js "MISS")
    /\ Headers_get (js "X-Cache") (resp_headers r') = Some (js "HIT")
    /\ Headers_get (js "X-Cache-Time") (resp_headers r')
       = Some (or_else (Some (now w)) (js "unknown")).
Proof.
  intros Hp Hk Hc Hu Hst Hw'.
  destruct (cache_miss_response w request targetUrl k stText body st ct Hp Hk Hc Hu Hst)
    as (r & stored & host & _ & Hf & Hs & _ & Hx & _ & _ & _ & Hss & Hsb & Hsc & _ & Hst' & _).
  rewrite Hf in Hw'. cbn [snd settle fold_left] in Hw'.
  assert (cache w' !! k = Some stored) as Hc' by (rewrite Hw'; apply lookup_insert_eq).
  destruct (cache_hit_response w' request targetUrl k stored Hp Hk Hc')
    as (r' & Hf' & Hs' & Hb' & _ & _ & Hx' & Ht' & Hn').
  { rewrite Hss. lia. }
  { rewrite Hss. apply andb_false_r. }
  exists r, r'. rewrite Hf. split; [reflexivity|]. split; [exact Hf'|].
  split; [congruence|]. split; [congruence|]. split.
  { rewrite Hn'; [exact Hsc|]. vm_compute. intros H.
    repeat (destruct H as [H|H]; [discriminate H|]). exact H. }
  split; [exact Hx|]. split; [exact Hx'|].
  rewrite Ht', Hst'. reflexivity.
Qed.

Lemma new_Response_json (body : Body) (st : N) :
  200 <= st <= 599 -> null_body_status st = false ->
  new_Response true body st [] jsonHeaders
  = Ok {| resp_status := st; resp_statusText := []; resp_headers := jsonHeaders;
          resp_body := body |}.
Proof.
  intros [H1 H2] Hn. unfold new_Response.
  assert ((st <? 200) || (599 <? st) = false) as ->.
  { apply orb_false_iff. split; apply N.ltb_ge; assumption. }
  rewrite Hn, andb_false_r. reflexivity.
Qed.

(** The answer of the [catch]. *)
Lemma proxy_error_eq (targetUrl origin message : list N) :
  proxy_error targetUrl origin message
  = (Ok (with_cors {| resp_status := 502; resp_statusText := [];
                      resp_headers := jsonHeaders;
                      resp_body := BStringify (JObj [ ("error", JStr (js "Proxy error"));
                                                      ("message", JStr message);
                                                      ("url", JStr targetUrl) ]%string) |}
           origin), []).
Proof.
  unfold proxy_error.
  match goal with |- _ = (Ok (with_cors ?r0 _), _) => apply (bindM_eq _ _ r0 [] []) end;
    reflexivity.
Qed.

(** The [try] block fetches the origin exactly once, and writes the
    cache only in the case of [fetch_origin_success]. *)
Lemma fetch_origin_effects (w : World) (targetUrl origin cacheKey host : list N)
    (wantJson : bool) :
  URL_hostname targetUrl = Some host ->
  (fetch_origin URL_hostname w targetUrl origin cacheKey wantJson).2
  = [EFetch targetUrl (getCacheTtl [] host)]
  \/ exists st stText ct body,
       upstream w targetUrl = Upstream st stText ct (Ok body) /\ 200 <= st <= 299.
Proof.
  intros Hh.
  destruct (upstream w targetUrl) as [e|st stText ct text] eqn:Hu.
  { left. unfold fetch_origin. rewrite Hh.
    erewrite bindM_eq; [| reflexivity |]; cycle 1.
    { apply bindM_throw. unfold do_fetch. rewrite Hu. reflexivity. }
    reflexivity. }
  destruct ((200 <=? st) && (st <=? 299)) eqn:Hok.
  - destruct text as [body|e].
    + right. apply andb_true_iff in Hok as [H1 H2]. apply N.leb_le in H1, H2.
      exists st, stText, ct, body. auto.
    + left. unfold fetch_origin. rewrite Hh.
      erewrite bindM_eq; [| reflexivity |]; cycle 1.
      { eapply bindM_eq; [unfold do_fetch; rewrite Hu; reflexivity|].
        lazy beta iota zeta. rewrite Hok. cbn [negb].
        apply bindM_throw. reflexivity. }
      reflexivity.
  - left. unfold fetch_origin. rewrite Hh.
    match goal with
    | |- (bindM _ ?f).2 = _ => destruct (f host) as [res ev] eqn:E
    end.
    erewrite bindM_eq; [| reflexivity | exact E]. cbn [snd app].
    unfold do_fetch in E. rewrite Hu in E.
    unfold bindM at 1 in E. cbn [fst snd] in E. lazy beta iota zeta in E.
    rewrite Hok in E. cbn [negb] in E.
    injection E as _ <-. f_equal.
    unfold bindM, liftM. cbn [fst snd].
    destruct (new_Response _ _ _ _ _); reflexivity.
Qed.

(** X14: a request past the gates that misses the cache, when the
    origin answers with a status from 300 to 599 other than 304, gets
    that status with a JSON body naming the upstream status, status
    text and URL, under the CORS headers; the origin is fetched once,
    its body is not read and nothing is written to the cache. *)
Theorem upstream_error_passthrough (w : World) (request : Request)
    (targetUrl k stText : list N) (st : N) (ct : option (list N))
    (text : result (list N)) :
  proxied URL_hostname request targetUrl ->
  cache_key (cacheKeyUrl targetUrl (wantsJson request)) = Some k ->
  cache w !! k = None ->
  upstream w targetUrl = Upstream st stText ct text ->
  300 <= st <= 599 -> st <> 304 ->
  exists r host,
    URL_hostname targetUrl = Some host
    /\ fetch URL_hostname cache_key w request
       = (Ok r, [EFetch targetUrl (getCacheTtl [] host)])
    /\ resp_status r = st
    /\ resp_body r
       = BStringify (JObj [ ("error", JStr (js "Upstream error: " ++ String_of_N st
                                              ++ js " " ++ stText));
                            ("url", JStr targetUrl) ]%string)
    /\ Headers_get (js "Content-Type") (resp_headers r) = Some (js "application/json")
    /\ has_cors r = true.
Proof.
  intros Hp Hk Hc Hu [H1 H2] H304.
  assert (exists host, URL_hostname targetUrl = Some host) as [host Hh].
  { destruct Hp as (_ & _ & _ & Ha). unfold isAllowedOrigin in Ha.
    destruct (URL_hostname targetUrl); [eauto | discriminate]. }
  assert (negb ((200 <=? st) && (st <=? 299)) = true) as Hok.
  { apply negb_true_iff, andb_false_iff. right. apply N.leb_gt. lia. }
  assert (null_body_status st = false) as Hn.
  { unfold null_body_status. repeat (apply orb_false_iff; split); apply N.eqb_neq; lia. }
  set (r0 := {| resp_status := st; resp_statusText := [];
                resp_headers := jsonHeaders;
                resp_body := BStringify (JObj [ ("error", JStr (js "Upstream error: "
                                                   ++ String_of_N st ++ js " " ++ stText));
                                                ("url", JStr targetUrl) ]%string) |}).
  assert (fetch_origin URL_hostname w targetUrl (originOf request) k (wantsJson request)
          = (Ok (with_cors r0 (originOf request)), [EFetch targetUrl (getCacheTtl [] host)]))
    as Hf.
  { unfold fetch_origin.
    apply (bindM_eq _ _ host [] [EFetch targetUrl (getCacheTtl [] host)]);
      [rewrite Hh; reflexivity|].
    apply (bindM_eq _ _ (st, stText, ct, text) [EFetch targetUrl (getCacheTtl [] host)] []);
      [unfold do_fetch; rewrite Hu; reflexivity|].
    lazy beta iota zeta. rewrite Hok.
    apply (bindM_eq _ _ r0 [] []);
      [unfold liftM; f_equal; apply new_Response_json; [lia | exact Hn]|].
    unfold liftM. f_equal. apply addCorsHeaders_with_cors; simpl; [lia|].
    rewrite Hn. reflexivity. }
  exists (with_cors r0 (originOf request)), host.
  split; [exact Hh|]. split.
  { rewrite (fetch_proxied w request targetUrl k Hp Hk), Hc.
    unfold try_catch. rewrite Hf. reflexivity. }
  split; [reflexivity|]. split; [reflexivity|]. split.
  { unfold with_cors; cbn [resp_headers].
    rewrite !Headers_get_set_ne by different_names. reflexivity. }
  apply (fetch_origin_cors _ _ _ _ _ _ _ _ Hf).
Qed.

(** The [try] block when the origin cannot be reached or its body
    cannot be read. *)
Lemma fetch_origin_failure (w : World) (targetUrl origin cacheKey host e : list N)
    (wantJson : bool) :
  URL_hostname targetUrl = Some host ->
  upstream w targetUrl = NetworkError e
  \/ (exists st stText ct, upstream w targetUrl = Upstream st stText ct (Throw e)
                           /\ 200 <= st <= 299) ->
  fetch_origin URL_hostname w targetUrl origin cacheKey wantJson
  = (Throw e, [EFetch targetUrl (getCacheTtl [] host)]).
Proof.
  intros Hh [Hu | (st & stText & ct & Hu & H1 & H2)]; unfold fetch_origin; rewrite Hh.
  - apply (bindM_eq _ _ host [] [EFetch targetUrl (getCacheTtl [] host)]); [reflexivity|].
    apply bindM_throw. unfold do_fetch. rewrite Hu. reflexivity.
  - apply (bindM_eq _ _ host [] [EFetch targetUrl (getCacheTtl [] host)]); [reflexivity|].
    apply (bindM_eq _ _ (st, stText, ct, Throw e) [EFetch targetUrl (getCacheTtl [] host)] []);
      [unfold do_fetch; rewrite Hu; reflexivity|].
    lazy beta iota zeta.
    assert (negb ((200 <=? st) && (st <=? 299)) = false) as ->.
    { apply negb_false_iff, andb_true_iff. split; apply N.leb_le; assumption. }
    apply bindM_throw. reflexivity.
Qed.

(** X15: a request past the gates that misses the cache is always
    answered, with the CORS headers: nothing thrown in the [try]
    block escapes.  When the origin cannot be reached, or its 2xx body
    cannot be read, the answer is 502 with a JSON body naming the
    error message and the URL; the origin was asked once and nothing
    is written to the cache. *)
Theorem miss_always_answered (w : World) (request : Request) (targetUrl k : list N) :
  proxied URL_hostname request targetUrl ->
  cache_key (cacheKeyUrl targetUrl (wantsJson request)) = Some k ->
  cache w !! k = None ->
  exists r ev host,
    URL_hostname targetUrl = Some host
    /\ fetch URL_hostname cache_key w request = (Ok r, ev)
    /\ has_cors r = true
    /\ forall e,
         upstream w targetUrl = NetworkError e
         \/ (exists st stText ct, upstream w targetUrl = Upstream st stText ct (Throw e)
                                  /\ 200 <= st <= 299) ->
         ev = [EFetch targetUrl (getCacheTtl [] host)]
         /\ resp_status r = 502
         /\ resp_body r = BStringify (JObj [ ("error", JStr (js "Proxy error"));
                                             ("message", JStr e);
                                             ("url", JStr targetUrl) ]%string)
         /\ Headers_get (js "Content-Type") (resp_headers r)
            = Some (js "application/json").
Proof.
  intros Hp Hk Hc.
  assert (exists host, URL_hostname targetUrl = Some host) as [host Hh].
  { destruct Hp as (_ & _ & _ & Ha). unfold isAllowedOrigin in Ha.
    destruct (URL_hostname targetUrl); [eauto | discriminate]. }
  rewrite (fetch_proxied w request targetUrl k Hp Hk), Hc. unfold try_catch.
  destruct (fetch_origin URL_hostname w targetUrl (originOf request) k (wantsJson request))
    as [[r0|e0] ev0] eqn:E; cbn [fst snd].
  - exists r0, ev0, host. split; [exact Hh|]. split; [reflexivity|]. split.
    + exact (fetch_origin_cors _ _ _ _ _ _ _ _ E).
    + intros e He.
      rewrite (fetch_origin_failure w targetUrl _ k host e _ Hh He) in E. discriminate E.
  - rewrite proxy_error_eq. cbn [fst snd]. rewrite app_nil_r.
    eexists _, ev0, host. split; [exact Hh|]. split; [reflexivity|]. split.
    + exact (proxy_error_cors _ _ _ _ _ (proxy_error_eq targetUrl (originOf request) e0)).
    + intros e He.
      rewrite (fetch_origin_failure w targetUrl _ k host e _ Hh He) in E.
      injection E as <- <-. split; [reflexivity|]. split; [reflexivity|].
      split; [reflexivity|].
      unfold with_cors; cbn [resp_headers].
      rewrite !Headers_get_set_ne by different_names. reflexivity.
Qed.

(** X16: the effects of the handler, for every request and world.  It
    leaves no effect exactly when the request is not a GET whose url
    parameter passes the allow-list and whose key is not in the cache.
    For such a request it asks the origin exactly once, for that URL,
    before anything else; and it writes to the cache exactly when the
    origin answers 2xx and the body is read: once, after the fetch,
    under the key of the request, an entry of status 200 with the body
    it answers, and it answers 200. *)
Theorem handler_effects (w : World) (request : Request) (res : result Response)
    (ev : list Event) :
  fetch URL_hostname cache_key w request = (res, ev) ->
  (ev = []
   /\ forall targetUrl k,
        proxied URL_hostname request targetUrl ->
        cache_key (cacheKeyUrl targetUrl (wantsJson request)) = Some k ->
        cache w !! k <> None)
  \/ exists targetUrl host k,
       proxied URL_hostname request targetUrl
       /\ URL_hostname targetUrl = Some host
       /\ cache_key (cacheKeyUrl targetUrl (wantsJson request)) = Some k
       /\ cache w !! k = None
       /\ ((ev = [EFetch targetUrl (getCacheTtl [] host)]
            /\ forall st stText ct body,
                 upstream w targetUrl = Upstream st stText ct (Ok body) ->
                 ~ 200 <= st <= 299)
           \/ exists r stored st stText ct body,
                upstream w targetUrl = Upstream st stText ct (Ok body)
                /\ 200 <= st <= 299
                /\ res = Ok r
                /\ ev = [EFetch targetUrl (getCacheTtl [] host); EPut k stored]
                /\ resp_status r = 200 /\ resp_status stored = 200
                /\ resp_body stored = resp_body r).
Proof.
  intros H.
  destruct (decide (method request = js "OPTIONS")) as [Ho|Ho].
  { left. unfold fetch in H. rewrite (bool_decide_eq_true_2 _ Ho) in H.
    injection H as _ <-. split; [reflexivity|].
    intros t k (Hg' & _) _. rewrite Ho in Hg'. vm_compute in Hg'. discriminate Hg'. }
  destruct (decide (method request = js "GET")) as [Hg|Hg].
  2: { left. unfold fetch in H.
       rewrite (bool_decide_eq_false_2 _ Ho), (bool_decide_eq_false_2 _ Hg) in H.
       injection H as _ <-. split; [reflexivity|].
       intros t k (Hg' & _) _. contradiction. }
  destruct (param_url request) as [[|c t]|] eqn:Hu.
  1, 3: left; unfold fetch in H;
    rewrite (bool_decide_eq_false_2 _ Ho), (bool_decide_eq_true_2 _ Hg), Hu in H;
    injection H as _ <-; (split; [reflexivity|]);
    intros t' k (_ & Hu' & Hne' & _) _; congruence.
  destruct (isAllowedOrigin URL_hostname (c :: t)) eqn:Ha.
  2: { left. unfold fetch in H.
       rewrite (bool_decide_eq_false_2 _ Ho), (bool_decide_eq_true_2 _ Hg), Hu, Ha in H.
       injection H as _ <-. split; [reflexivity|].
       intros t' k (_ & Hu' & _ & Ha') _. congruence. }
  destruct (cache_key (cacheKeyUrl (c :: t) (wantsJson request))) as [k|] eqn:Hk.
  2: { left. unfold fetch in H.
       rewrite (bool_decide_eq_false_2 _ Ho), (bool_decide_eq_true_2 _ Hg), Hu, Ha in H.
       cbn [negb] in H. fold (wantsJson request) in H. rewrite Hk in H.
       injection H as _ <-. split; [reflexivity|].
       intros t' k (_ & Hu' & _) Hk'. congruence. }
  assert (proxied URL_hostname request (c :: t)) as Hp
    by (repeat split; [exact Hg | exact Hu | discriminate | exact Ha]).
  rewrite (fetch_proxied w request (c :: t) k Hp Hk) in H.
  destruct (cache w !! k) as [stored|] eqn:Hc.
  { left. split.
    - unfold bindM, liftM, retM in H. cbn [fst snd] in H.
      destruct (addCorsHeaders stored (originOf request)); injection H as _ <-; reflexivity.
    - intros t' k' (_ & Hu' & _) Hk'. congruence. }
  right.
  assert (exists host, URL_hostname (c :: t) = Some host) as [host Hh].
  { unfold isAllowedOrigin in Ha. destruct (URL_hostname (c :: t)); [eauto | discriminate]. }
  exists (c :: t), host, k. repeat (split; [assumption|]).
  assert (ev = (fetch_origin URL_hostname w (c :: t) (originOf request) k
                  (wantsJson request)).2) as Hev.
  { unfold try_catch in H.
    destruct (fetch_origin URL_hostname w (c :: t) (originOf request) k (wantsJson request))
      as [[r0|e0] ev0]; cbn [fst snd] in *.
    - injection H as _ <-. reflexivity.
    - rewrite proxy_error_eq in H. cbn [fst snd] in H. rewrite app_nil_r in H.
      injection H as _ <-. reflexivity. }
  destruct (fetch_origin_effects w (c :: t) (originOf request) k host (wantsJson request) Hh)
    as [He | (st & stText & ct & body & Hup & Hst)].
  - left. split; [rewrite Hev; exact He|].
    intros st stText ct body Hup Hst.
    rewrite (fetch_origin_success URL_hostname w (c :: t) (originOf request) k host
               stText body (wantsJson request) st ct Hh Hup Hst) in He.
    discriminate He.
  - right.
    pose proof (fetch_origin_success URL_hostname w (c :: t) (originOf request) k host
                  stText body (wantsJson request) st ct Hh Hup Hst) as Hf.
    unfold try_catch in H. rewrite Hf in H. cbn [fst snd] in H. injection H as <- <-.
    eexists _, _, st, stText, ct, body. split; [exact Hup|]. split; [exact Hst|].
    split; [reflexivity|]. split; [reflexivity|].
    split; [reflexivity|]. split; reflexivity.
Qed.

(** X17: an OPTIONS request is answered with status 200, no body and
    no Content-Type: the four CORS headers only, the allowed origin
    being the [Origin] header of the request when it has one and [*]
    otherwise.  It is answered so whatever its url parameter, on the
    allow-list or not, and leaves no effect. *)
Theorem preflight_response (w : World) (request : Request) :
  method request = js "OPTIONS" ->
  exists r,
    fetch URL_hostname cache_key w request = (Ok r, [])
    /\ resp_status r = 200 /\ resp_body r = BNull
    /\ resp_headers r = Headers_of (corsHeaders (originOf request))
    /\ has_cors r = true
    /\ Headers_get (js "Access-Control-Allow-Origin") (resp_headers r)
       = Some (originOf request)
    /\ Headers_get (js "Content-Type") (resp_headers r) = None
    /\ (header_Origin request = None \/ header_Origin request = Some [] ->
        originOf request = js "*").
Proof.
  intros Ho. unfold fetch. rewrite (bool_decide_eq_true_2 _ Ho).
  fold (originOf request).
  exists {| resp_status := 200; resp_statusText := [];
            resp_headers := Headers_of (corsHeaders (originOf request));
            resp_body := BNull |}.
  split; [reflexivity|]. split; [reflexivity|]. split; [reflexivity|].
  split; [reflexivity|]. split; [vm_compute; reflexivity|]. split.
  { unfold corsHeaders, Headers_of; simpl.
    rewrite !Headers_get_set_ne by different_names. apply Headers_get_set_eq. }
  split; [vm_compute; reflexivity|].
  intros [H|H]; unfold originOf; rewrite H; reflexivity.
Qed.

End HandlerPaths.

(** ** The paths of the handler at concrete requests *)

Lemma bbc_proxied (wantJson : bool) :
  proxied simple_hostname (get_request None bbc_feed wantJson) bbc_feed.
Proof. unfold proxied. repeat split; try reflexivity. discriminate. Qed.

Lemma cache_hit_response_witness :
  exists r,
    fetch simple_hostname simple_key after_json_request (get_request None bbc_feed true)
    = (Ok r, [])
    /\ resp_status r = 200 /\ resp_body r = resp_body bbc_entry
    /\ Headers_get (js "X-Cache") (resp_headers r) = Some (js "HIT")
    /\ Headers_get (js "X-Cache-Time") (resp_headers r) = Some (now feed_origin).
Proof.
  destruct (cache_hit_response simple_hostname simple_key after_json_request
              (get_request None bbc_feed true) bbc_feed (bbc_feed ++ js "__json") bbc_entry
              (bbc_proxied true) eq_refl)
    as (r & Hf & Hs & Hb & _ & _ & Hx & Ht & _).
  - vm_compute. reflexivity.
  - vm_compute. split; discriminate.
  - reflexivity.
  - exists r. repeat split; assumption.
Defined.

Lemma cache_miss_response_witness :
  exists r stored,
    fetch simple_hostname simple_key feed_origin (get_request None bbc_feed false)
    = (Ok r, [EFetch bbc_feed 120; EPut bbc_feed stored])
    /\ resp_body r = BText small_feed
    /\ Headers_get (js "Content-Type") (resp_headers r) = Some (js "application/rss+xml")
    /\ Headers_get (js "X-Cache-TTL") (resp_headers r) = Some (js "300").
Proof.
  destruct (cache_miss_response simple_hostname simple_key feed_origin
              (get_request None bbc_feed false) bbc_feed bbc_feed (js "OK") small_feed 200
              (Some (js "application/rss+xml")) (bbc_proxied false) eq_refl eq_refl eq_refl)
    as (r & stored & host & Hh & Hf & _ & _ & _ & Httl & Hraw & _).
  - lia.
  - injection Hh as <-. destruct (Hraw eq_refl) as [Hb Hc].
    exists r, stored. repeat split; assumption.
Defined.

Lemma miss_then_hit_witness :
  exists r r',
    (fetch simple_hostname simple_key feed_origin (get_request None bbc_feed true)).1 = Ok r
    /\ fetch simple_hostname simple_key after_json_request (get_request None bbc_feed true)
       = (Ok r', [])
    /\ resp_body r' = resp_body r
    /\ Headers_get (js "X-Cache") (resp_headers r') = Some (js "HIT").
Proof.
  destruct (miss_then_hit simple_hostname simple_key feed_origin after_json_request
              (get_request None bbc_feed true) bbc_feed (bbc_feed ++ js "__json") (js "OK")
              small_feed 200 (Some (js "application/rss+xml"))
              (bbc_proxied true) eq_refl eq_refl eq_refl)
    as (r & r' & Hf & Hf' & _ & Hb & _ & _ & Hx & _).
  - lia.
  - reflexivity.
  - exists r, r'. repeat split; assumption.
Defined.

Lemma upstream_error_passthrough_witness :
  exists r,
    fetch simple_hostname simple_key missing_origin (get_request None bbc_feed true)
    = (Ok r, [EFetch bbc_feed 120])
    /\ resp_status r = 404
    /\ resp_body r = BStringify (JObj [ ("error", JStr (js "Upstream error: 404 Not Found"));
                                        ("url", JStr bbc_feed) ]%string).
Proof.
  destruct (upstream_error_passthrough simple_hostname simple_key missing_origin
              (get_request None bbc_feed true) bbc_feed (bbc_feed ++ js "__json")
              (js "Not Found") 404 (Some (js "text/html")) (Ok (js "<html>gone</html>"))
              (bbc_proxied true) eq_refl eq_refl eq_refl)
    as (r & host & Hh & Hf & Hs & Hb & _).
  - lia.
  - discriminate.
  - injection Hh as <-. exists r. repeat split; assumption.
Defined.

Lemma miss_always_answered_witness :
  exists r,
    fetch simple_hostname simple_key offline (get_request None bbc_feed false)
    = (Ok r, [EFetch bbc_feed 120])
    /\ resp_status r = 502
    /\ resp_body r = BStringify (JObj [ ("error", JStr (js "Proxy error"));
                                        ("message", JStr (js "fetch failed"));
                                        ("url", JStr bbc_feed) ]%string).
Proof.
  destruct (miss_always_answered simple_hostname simple_key offline
              (get_request None bbc_feed false) bbc_feed bbc_feed
              (bbc_proxied false) eq_refl eq_refl)
    as (r & ev & host & Hh & Hf & _ & He).
  injection Hh as <-.
  destruct (He (js "fetch failed") (or_introl eq_refl)) as (-> & Hs & Hb & _).
  exists r. repeat split; assumption.
Defined.

Lemma handler_effects_witness :
  exists res,
    fetch simple_hostname simple_key offline (get_request None bbc_feed false)
    = (res, [EFetch bbc_feed 120])
    /\ exists targetUrl host k,
         proxied simple_hostname (get_request None bbc_feed false) targetUrl
         /\ simple_hostname targetUrl = Some host
         /\ simple_key (cacheKeyUrl targetUrl false) = Some k
         /\ cache offline !! k = None.
Proof.
  destruct (fetch simple_hostname simple_key offline (get_request None bbc_feed false))
    as [res ev] eqn:E.
  assert (ev = [EFetch bbc_feed 120]) as ->
    by (pose proof E as E'; vm_compute in E'; injection E' as _ <-; reflexivity).
  exists res. split; [reflexivity|].
  destruct (handler_effects simple_hostname simple_key offline
              (get_request None bbc_feed false) res [EFetch bbc_feed 120] E)
    as [[H _] | (t & host & k & Hp & Hh & Hk & Hc & _)]; [discriminate H|].
  exists t, host, k. repeat split; try assumption; apply Hp.
Defined.

Lemma preflight_response_witness :
  exists r,
    fetch simple_hostname simple_key offline
      (request_of "OPTIONS" (Some (js "https://evil.example.com/feed")) None)
    = (Ok r, [])
    /\ resp_status r = 200 /\ resp_body r = BNull
    /\ Headers_get (js "Access-Control-Allow-Origin") (resp_headers r) = Some (js "*").
Proof.
  destruct (preflight_response simple_hostname simple_key offline
              (request_of "OPTIONS" (Some (js "https://evil.example.com/feed")) None) eq_refl)
    as (r & Hf & Hs & Hb & _ & _ & Ho & _).
  exists r. repeat split; assumption.
Defined.

(** ** The cache key, completed *)

(** X18: two requests have the same key text exactly when they are
    the same (same URL and same format), or one is the raw request for
    the URL of the other, a JSON request, with [__json] appended:
    within one format the key determines the URL. *)
Theorem cacheKeyUrl_collisions (url1 url2 : list N) (json1 json2 : bool) :
  cacheKeyUrl url1 json1 = cacheKeyUrl url2 json2 <->
  (json1 = json2 /\ url1 = url2)
  \/ (json1 = false /\ json2 = true /\ url1 = url2 ++ js "__json")
  \/ (json1 = true /\ json2 = false /\ url2 = url1 ++ js "__json").
Proof.
  unfold cacheKeyUrl. destruct json1, json2; split.
  - intros H. apply app_inv_tail in H. auto.
  - intros [[_ ->] | [(H & _) | (_ & H & _)]]; [reflexivity | discriminate H..].
  - intros H. right; right. auto.
  - intros [[H _] | [(H & _) | (_ & _ & ->)]]; [discriminate H.. | reflexivity].
  - intros H. right; left. auto.
  - intros [[H _] | [(_ & _ & ->) | (H & _)]]; [discriminate H | reflexivity | discriminate H].
  - intros H. auto.
  - intros [[_ ->] | [(_ & H & _) | (H & _)]]; [reflexivity | discriminate H..].
Qed.

(** ** The elements of a document *)

(** What the pattern of an element matches: the opening text, up to
    case, some text, and the closing text, up to case. *)
Lemma element_match (o c s cap rest : list N) :
  rmatch true [Lit o; Rep any 0 false false; Lit c] cap s = Some (cap, rest) ->
  exists o' mid c', s = (o' ++ mid ++ c') ++ rest
                    /\ map canon o' = map canon o /\ map canon c' = map canon c.
Proof.
  cbn [rmatch]. intros H.
  destruct (lit true o s) as [s1|] eqn:E1; [|discriminate].
  apply lit_canon_Some in E1 as (o' & -> & Ho).
  apply rep_Some in H as (mid & s2 & H & _ & _ & ->).
  destruct (lit true c s2) as [s3|] eqn:E2; [|discriminate].
  apply lit_canon_Some in E2 as (c' & -> & Hc). injection H as <-.
  exists o', mid, c'. rewrite <- !app_assoc. auto.
Qed.

Lemma prepend_gap (c : N) (gaps els : list (list N)) (tail : list N) :
  length gaps = length els ->
  exists gaps' tail',
    length gaps' = length els
    /\ c :: concat (zip_with app gaps els) ++ tail
       = concat (zip_with app gaps' els) ++ tail'.
Proof.
  intros Hl. destruct gaps as [|g gaps], els as [|e els]; try discriminate Hl.
  - exists [], (c :: tail). auto.
  - exists ((c :: g) :: gaps), tail. auto.
Qed.

(** The matches of a global search lie in the text one after the
    other, without overlap. *)
Lemma match_all_cover (ic : bool) (r : list atom) (s : list N) (skip : nat) :
  (skip <= length s)%nat ->
  exists gaps tail,
    length gaps = length (match_all ic r s skip)
    /\ drop skip s = concat (zip_with app gaps (match_all ic r s skip)) ++ tail.
Proof.
  revert skip. induction s as [|c s IH]; intros skip Hs.
  - destruct skip; [|simpl in Hs; lia]. simpl.
    destruct (rmatch ic r [] []) as [[cap rest]|].
    + exists [[]], []. auto.
    + exists [], []. auto.
  - destruct skip as [|n].
    + cbn [match_all drop].
      destruct (rmatch ic r [] (c :: s)) as [[cap rest]|] eqn:E.
      * destruct (rmatch_Some _ _ _ _ _ _ E) as [[m Hm] _].
        assert (length (c :: s) - length rest = length m)%nat as ->
          by (rewrite Hm, length_app; lia).
        assert (take (length m) (c :: s) = m) as ->
          by (rewrite Hm; apply take_app_length).
        destruct m as [|x m].
        -- destruct (IH 0%nat ltac:(lia)) as (gaps & tail & Hl & Hd).
           cbn [length Nat.sub]. rewrite drop_0 in Hd.
           destruct (prepend_gap c gaps _ tail Hl) as (gaps' & tail' & Hl' & Hc).
           exists ([] :: gaps'), tail'. cbn [length zip_with concat app drop].
           split; [congruence | rewrite <- Hc, <- Hd; reflexivity].
        -- injection Hm as <- ->. cbn [length Nat.sub]. rewrite Nat.sub_0_r.
           destruct (IH (length m)) as (gaps & tail & Hl & Hd);
             [rewrite length_app; lia|].
           rewrite drop_app_length in Hd.
           exists ([] :: gaps), tail. cbn [length zip_with concat app].
           split; [congruence|]. rewrite <- app_assoc, <- Hd. reflexivity.
      * destruct (IH 0%nat ltac:(lia)) as (gaps & tail & Hl & Hd).
        rewrite drop_0 in Hd.
        destruct (prepend_gap c gaps _ tail Hl) as (gaps' & tail' & Hl' & Hc).
        exists gaps', tail'. split; [exact Hl'|]. rewrite <- Hc, <- Hd. reflexivity.
    + cbn [match_all drop]. apply IH. simpl in Hs. lia.
Qed.

Lemma match_all_In (ic : bool) (r : list atom) (s : list N) (skip : nat) (e : list N) :
  In e (match_all ic r s skip) ->
  exists s' cap rest m, rmatch ic r [] s' = Some (cap, rest) /\ s' = m ++ rest /\ e = m.
Proof.
  revert skip. induction s as [|c s IH]; intros skip H.
  - destruct skip; simpl in H; [|destruct H].
    destruct (rmatch ic r [] []) as [[cap rest]|] eqn:E; [|destruct H].
    destruct H as [<-|[]].
    destruct (rmatch_Some _ _ _ _ _ _ E) as [[m Hm] _].
    destruct m; [|discriminate Hm]. simpl in Hm. subst rest.
    exists [], cap, [], []. auto.
  - destruct skip as [|n]; cbn [match_all] in H; [|exact (IH _ H)].
    destruct (rmatch ic r [] (c :: s)) as [[cap rest]|] eqn:E; [|exact (IH _ H)].
    destruct H as [<-|H]; [|exact (IH _ H)].
    destruct (rmatch_Some _ _ _ _ _ _ E) as [[m Hm] _].
    exists (c :: s), cap, rest, m. split; [exact E|]. split; [exact Hm|].
    rewrite Hm at 2. rewrite Hm, length_app.
    replace (length m + length rest - length rest)%nat with (length m) by lia.
    apply take_app_length.
Qed.

(** X19: the elements that the normalizer reads are pieces of the
    document that follow one another without overlap, in document
    order, and each one runs from an opening [<item] (or [<entry] in
    an Atom document) to a closing [</item>] (or [</entry>]), in any
    case of the letters. *)
Theorem elements_are_pieces (xml : list N) :
  (exists gaps tail,
      length gaps = length (elements xml)
      /\ xml = concat (zip_with app gaps (elements xml)) ++ tail)
  /\ Forall (fun e => exists o mid c,
               e = o ++ mid ++ c
               /\ map canon o = map canon (if isAtom xml then js "<entry" else js "<item")
               /\ map canon c = map canon (if isAtom xml then js "</entry>" else js "</item>"))
       (elements xml).
Proof.
  split.
  - unfold elements. destruct (isAtom xml).
    + destruct (match_all_cover true entryRegex xml 0 ltac:(lia)) as (g & t & Hl & Hd).
      exists g, t. rewrite drop_0 in Hd. auto.
    + destruct (match_all_cover true itemRegex xml 0 ltac:(lia)) as (g & t & Hl & Hd).
      exists g, t. rewrite drop_0 in Hd. auto.
  - apply List.Forall_forall. intros e He. unfold elements in He.
    destruct (isAtom xml);
      apply match_all_In in He as (s' & cap & rest & m & Hm & Hs & ->);
      destruct (rmatch_Some _ _ _ _ _ _ Hm) as [_ Hcap];
      rewrite (Hcap ltac:(repeat constructor)) in Hm;
      apply element_match in Hm as (o & mid & c & Hs' & Ho & Hc);
      rewrite Hs' in Hs; apply app_inv_tail in Hs; exists o, mid, c; auto.
Qed.

(** ** The order of the decoding passes *)

Lemma replace_all_drop (ic : bool) (r : list atom) (f : list N -> list N)
    (m rest : list N) :
  replace_all ic r f (m ++ rest) (length m) = replace_all ic r f rest 0.
Proof. induction m as [|c m IH]; [reflexivity | exact IH]. Qed.

(** A pass whose pattern matches at the head of the text. *)
Lemma replace_at_head (ic : bool) (r : list atom) (f : list N -> list N)
    (c : N) (m rest cap : list N) :
  rmatch ic r [] (c :: m ++ rest) = Some (cap, rest) ->
  replace_all ic r f (c :: m ++ rest) 0 = f cap ++ replace_all ic r f rest 0.
Proof.
  intros H. cbn [replace_all]. rewrite H. cbv zeta.
  assert (length (c :: m ++ rest) - length rest = S (length m))%nat as ->
    by (cbn [length]; rewrite length_app; lia).
  cbn [Nat.sub]. rewrite Nat.sub_0_r, replace_all_drop. reflexivity.
Qed.

Lemma no_amp_prefix (p s : list N) :
  forallb (fun c => negb (c =? 38)) p = true -> ~ In 38 s -> ~ In 38 (p ++ s).
Proof.
  intros Hp Hs H. apply in_app_or in H as [H|H]; [|exact (Hs H)].
  rewrite forallb_forall in Hp. specialize (Hp _ H). discriminate Hp.
Qed.

Ltac amp_free H :=
  first [ exact H | apply no_amp_prefix; [reflexivity | amp_free H] ].

Ltac skip_pass ic q H :=
  rewrite (replace_head_id ic q) by (first [reflexivity | amp_free H]).

Ltac plain_pass ic q H :=
  rewrite (replace_all_absent ic 38 q) by (first [reflexivity | amp_free H]).

(** The first three passes on a text that begins with [&amp;] followed
    by a text without an ampersand: the third pass leaves the ampersand
    and that text. *)
Lemma amp_pass (q s : list N) :
  ~ In 38 (q ++ s) ->
  replace_all false [Lit (38 :: js "amp;")] (fun _ => js "&")
    (replace_all false [Lit (38 :: js "gt;")] (fun _ => js ">")
       (replace_all false [Lit (38 :: js "lt;")] (fun _ => js "<")
          (38 :: js "amp;" ++ q ++ s) 0) 0) 0
  = 38 :: q ++ s.
Proof.
  intros H.
  skip_pass false (js "lt;") H. skip_pass false (js "gt;") H.
  rewrite (replace_at_head false _ _ 38 (js "amp;") (q ++ s) []) by reflexivity.
  plain_pass false (js "amp;") H. reflexivity.
Qed.

(** X20: the ampersand entity is decoded third, after the angle
    brackets and before the quotes. So in front of a text without an
    ampersand, an escaped [&lt;] or [&gt;] entity is decoded once and
    stays an entity, while an escaped [&quot;], [&apos;] or [&#39;]
    entity is decoded twice, down to the quote itself. *)
Theorem decode_order (s : list N) :
  ~ In 38 s ->
  decodeHtmlEntities (js "&amp;lt;" ++ s) = js "&lt;" ++ s
  /\ decodeHtmlEntities (js "&amp;gt;" ++ s) = js "&gt;" ++ s
  /\ decodeHtmlEntities (js "&amp;quot;" ++ s) = [34] ++ s
  /\ decodeHtmlEntities (js "&amp;apos;" ++ s) = [39] ++ s
  /\ decodeHtmlEntities (js "&amp;#39;" ++ s) = [39] ++ s.
Proof.
  intros H. repeat split.
  - change (js "&amp;lt;" ++ s) with (38 :: js "amp;" ++ js "lt;" ++ s).
    unfold decodeHtmlEntities. cbn [truthy negb]. cbv zeta. amp_literals.
    rewrite (amp_pass (js "lt;") s) by amp_free H.
    skip_pass false (js "quot;") H. skip_pass false (js "#39;") H.
    skip_pass false (js "apos;") H. skip_pass true (js "#x") H.
    skip_pass false (js "#") H. reflexivity.
  - change (js "&amp;gt;" ++ s) with (38 :: js "amp;" ++ js "gt;" ++ s).
    unfold decodeHtmlEntities. cbn [truthy negb]. cbv zeta. amp_literals.
    rewrite (amp_pass (js "gt;") s) by amp_free H.
    skip_pass false (js "quot;") H. skip_pass false (js "#39;") H.
    skip_pass false (js "apos;") H. skip_pass true (js "#x") H.
    skip_pass false (js "#") H. reflexivity.
  - change (js "&amp;quot;" ++ s) with (38 :: js "amp;" ++ js "quot;" ++ s).
    unfold decodeHtmlEntities. cbn [truthy negb]. cbv zeta. amp_literals.
    rewrite (amp_pass (js "quot;") s) by amp_free H.
    rewrite (replace_at_head false _ _ 38 (js "quot;") s []) by reflexivity.
    plain_pass false (js "quot;") H.
    change ((fun _ : list N => [34]) [] ++ s) with ([34] ++ s).
    plain_pass false (js "#39;") H. plain_pass false (js "apos;") H.
    plain_pass true (js "#x") H. plain_pass false (js "#") H. reflexivity.
  - change (js "&amp;apos;" ++ s) with (38 :: js "amp;" ++ js "apos;" ++ s).
    unfold decodeHtmlEntities. cbn [truthy negb]. cbv zeta. amp_literals.
    rewrite (amp_pass (js "apos;") s) by amp_free H.
    skip_pass false (js "quot;") H. skip_pass false (js "#39;") H.
    rewrite (replace_at_head false _ _ 38 (js "apos;") s []) by reflexivity.
    plain_pass false (js "apos;") H.
    change ((fun _ : list N => js "'") [] ++ s) with ([39] ++ s).
    plain_pass true (js "#x") H. plain_pass false (js "#") H. reflexivity.
  - change (js "&amp;#39;" ++ s) with (38 :: js "amp;" ++ js "#39;" ++ s).
    unfold decodeHtmlEntities. cbn [truthy negb]. cbv zeta. amp_literals.
    rewrite (amp_pass (js "#39;") s) by amp_free H.
    skip_pass false (js "quot;") H.
    rewrite (replace_at_head false _ _ 38 (js "#39;") s []) by reflexivity.
    plain_pass false (js "#39;") H.
    change ((fun _ : list N => js "'") [] ++ s) with ([39] ++ s).
    plain_pass false (js "apos;") H.
    plain_pass true (js "#x") H. plain_pass false (js "#") H. reflexivity.
Qed.

Lemma decode_order_witness :
  decodeHtmlEntities (js "&amp;lt;b") = js "&lt;b"
  /\ decodeHtmlEntities (js "&amp;quot;b") = [34; 98].
Proof.
  assert (~ In 38 (js "b")) as H by (intros [H|[]]; discriminate H).
  destruct (decode_order (js "b") H) as (Hlt & _ & Hquot & _).
  split; [exact Hlt | exact Hquot].
Defined.
